(** * GridMap: a shallow embedding of grid_map_core/src/GridMap.cpp

    The development follows the C++ class member by member.

    - [int] values (indices, sizes, shifts) are integers of [Z]; signed
      overflow is undefined behaviour in C++ and is not modelled.
    - [double] values (positions, lengths, the resolution) are exact
      rationals [Qc]; rounding error of the machine arithmetic is not
      modelled, and neither is a division by zero, so that the theorems
      on [move] and [getSubmap] assume a positive resolution.  A theorem
      that states a value the code computes in binary64 is stated for the
      calls whose machine operations are exact ([exactGeometry]); IEEE 754
      operations are correctly rounded, so that on these calls the code
      computes the rational of the model.
    - [float] cell values are [spec_float], so that the NaN sentinel and
      [isfinite] are the IEEE ones.
    - A thrown exception or a failed assertion is [None].
    - Non-const member functions pass the object explicitly and return the
      new one. *)

From Stdlib Require Import ZArith QArith Qcanon Qround Lia Lqa.
From Stdlib Require Import Floats.SpecFloat.
From stdpp Require Import gmap strings list numbers.

Local Open Scope Z_scope.

(** ** Basic types (grid_map_core/TypeDefs.hpp) *)

Definition cell : Type := spec_float.
Definition NAN : cell := S754_nan.

Definition isfinite (v : cell) : bool :=
  match v with
  | S754_zero _ | S754_finite _ _ _ => true
  | S754_infinity _ | S754_nan => false
  end.

Definition Index : Type := Z * Z.
Definition Size : Type := Z * Z.
Definition Position : Type := Qc * Qc.
Definition Length : Type := Qc * Qc.
Definition Time : Type := Z.

(** [v(i)] for a two-component array, [i] being 0 or 1. *)
Definition coord {A : Type} (i : nat) (v : A * A) : A :=
  match i with
  | O => v.1
  | _ => v.2
  end.

(** ** Dense matrices (Eigen::MatrixXf)

    A matrix is its two dimensions and its coefficients.  Coefficients are
    read through [Eigen.get], which checks the range as Eigen's assertions
    do; what [coeff] holds outside the range is never observed. *)
Module Eigen.

Record Matrix : Type := mkMatrix
  { rows : Z;
    cols : Z;
    coeff : Z → Z → cell }.

(** [Matrix()] *)
Definition empty : Matrix := mkMatrix 0 0 (λ _ _, S754_zero false).

(** [Matrix::Constant(r, c, v)] *)
Definition Constant (r c : Z) (v : cell) : Matrix := mkMatrix r c (λ _ _, v).

(** [m.setConstant(v)] *)
Definition setConstant (v : cell) (m : Matrix) : Matrix :=
  mkMatrix (rows m) (cols m) (λ _ _, v).

(** [m.resize(r, c)]: the dimensions change and the coefficients are left
    unspecified; here they are whatever the old storage held. *)
Definition resize (r c : Z) (m : Matrix) : Matrix := mkMatrix r c (coeff m).

Definition inRange (m : Matrix) (i j : Z) : bool :=
  (0 <=? i) && (i <? rows m) && (0 <=? j) && (j <? cols m).

(** [m(i, j)] *)
Definition get (m : Matrix) (i j : Z) : option cell :=
  if inRange m i j then Some (coeff m i j) else None.

Definition inBlock (i j nr nc a b : Z) : bool :=
  (i <=? a) && (a <? i + nr) && (j <=? b) && (b <? j + nc).

(** The assertion of [m.block(i, j, nr, nc)]. *)
Definition validBlock (m : Matrix) (i j nr nc : Z) : bool :=
  (0 <=? i) && (0 <=? nr) && (i + nr <=? rows m)
  && (0 <=? j) && (0 <=? nc) && (j + nc <=? cols m).

(** [m.block(i, j, nr, nc).setConstant(v)] *)
Definition block_setConstant (i j nr nc : Z) (v : cell) (m : Matrix)
  : option Matrix :=
  if validBlock m i j nr nc
  then Some (mkMatrix (rows m) (cols m)
               (λ a b, if inBlock i j nr nc a b then v else coeff m a b))
  else None.

(** [dst.block(di, dj, nr, nc) = src.block(si, sj, nr, nc)] *)
Definition block_assign (di dj : Z) (src : Matrix) (si sj nr nc : Z)
    (dst : Matrix) : option Matrix :=
  if validBlock dst di dj nr nc && validBlock src si sj nr nc
  then Some (mkMatrix (rows dst) (cols dst)
               (λ a b, if inBlock di dj nr nc a b
                       then coeff src (si + (a - di)) (sj + (b - dj))
                       else coeff dst a b))
  else None.

(** The four corner blocks of [dst], as [block] positions. *)
Definition topLeftCorner (dst : Matrix) (nr nc : Z) : Z * Z := (0, 0).
Definition topRightCorner (dst : Matrix) (nr nc : Z) : Z * Z :=
  (0, cols dst - nc).
Definition bottomLeftCorner (dst : Matrix) (nr nc : Z) : Z * Z :=
  (rows dst - nr, 0).
Definition bottomRightCorner (dst : Matrix) (nr nc : Z) : Z * Z :=
  (rows dst - nr, cols dst - nc).

End Eigen.

Abbreviation Matrix := Eigen.Matrix.

(** ** Rational helpers *)

Definition QcZ (z : Z) : Qc := Qc_of_Z z.
Definition half : Qc := Q2Qc (1 # 2).

(** C's [round]: to the nearest integer, ties away from zero. *)
Definition round (x : Qc) : Z :=
  if decide (0 ≤ x)%Qc
  then Qfloor (this (x + half)%Qc)
  else Qceiling (this (x - half)%Qc).

Definition floorQc (x : Qc) : Z := Qfloor (this x).

(** ** GridMapMath (grid_map_core/GridMapMath.hpp)

    GridMap.cpp includes this header and calls its functions; the header
    itself is not among the sources.  Every definition of this module
    follows the specification of the converter and of the shift engine. *)
Module GridMapMath.

(** Modelled from the spec: [mapIndexWithinRange], the reusable
    "reduce into range" helper, an index reduced into [0, size) by
    modular reduction.  It is meant for a positive [bufferSize]. *)
Definition mapIndexWithinRange (index bufferSize : Z) : Z :=
  index mod bufferSize.

(** Modelled from the spec: [mapIndexWithinRange] on both components of an
    index, as [move] calls it on [startIndex_]. *)
Definition mapIndexWithinRange2 (index : Index) (bufferSize : Size) : Index :=
  (mapIndexWithinRange index.1 bufferSize.1,
   mapIndexWithinRange index.2 bufferSize.2).

(** Modelled from the spec: [getIndexFromBufferIndex], the logical offset
    of a buffer index, "(index - startIndex + size) % size". *)
Definition getIndexFromBufferIndex
    (bufferIndex bufferSize bufferStartIndex : Z) : Z :=
  (bufferIndex - bufferStartIndex + bufferSize) mod bufferSize.

(** Modelled from the spec: [getBufferIndexFromIndex], "add startIndex
    and reduce modulo size". *)
Definition getBufferIndexFromIndex
    (index bufferSize bufferStartIndex : Z) : Z :=
  mapIndexWithinRange (index + bufferStartIndex) bufferSize.

(** Modelled from the spec: [checkIfIndexWithinRange], "index inside the
    map", both components in [0, size). *)
Definition checkIfIndexWithinRange (index : Index) (bufferSize : Size) : bool :=
  (0 <=? index.1) && (index.1 <? bufferSize.1)
  && (0 <=? index.2) && (index.2 <? bufferSize.2).

(** Modelled from the spec: the bounds check of one axis against the window
    [center - length/2, center + length/2). *)
Definition withinAxis (p len c : Qc) : bool :=
  bool_decide (c - len * half ≤ p)%Qc && bool_decide (p < c + len * half)%Qc.

(** Modelled from the spec: [checkIfPositionWithinMap], the axis-aligned
    bounds check against the window, independent of the buffer layout. *)
Definition checkIfPositionWithinMap
    (position : Position) (mapLength : Length) (mapPosition : Position) : bool :=
  withinAxis position.1 mapLength.1 mapPosition.1
  && withinAxis position.2 mapLength.2 mapPosition.2.

(** Modelled from the spec: the unwrapped logical offset of a position,
    counted in cells from the corner of the window at which the cell of
    logical offset 0 lies.  The data model places the cell of logical
    offset [l] at [position - length/2 + resolution * (l + 0.5)], so the
    offset of [p] is [floor ((p - (center - length/2)) / resolution)];
    the converter's description leaves the sign convention to this
    requirement. *)
Definition offsetOfPosition (p len c resolution : Qc) : Z :=
  floorQc ((p - (c - len * half)) / resolution)%Qc.

(** Modelled from the spec: the world position of the centre of the cell
    of logical offset [l]. *)
Definition positionOfOffset (l : Z) (len c resolution : Qc) : Qc :=
  (c - len * half + resolution * (QcZ l + half))%Qc.

(** Modelled from the spec: [getIndexFromPosition], positionToIndex. It
    fails for a position outside the window. *)
Definition getIndexFromPosition
    (position : Position) (mapLength : Length) (mapPosition : Position)
    (resolution : Qc) (bufferSize : Size) (bufferStartIndex : Index)
  : option Index :=
  if checkIfPositionWithinMap position mapLength mapPosition
  then Some
    (getBufferIndexFromIndex
       (offsetOfPosition position.1 mapLength.1 mapPosition.1 resolution)
       bufferSize.1 bufferStartIndex.1,
     getBufferIndexFromIndex
       (offsetOfPosition position.2 mapLength.2 mapPosition.2 resolution)
       bufferSize.2 bufferStartIndex.2)
  else None.

(** Modelled from the spec: [getPositionFromIndex], indexToPosition. It
    fails for an index outside the buffer. *)
Definition getPositionFromIndex
    (index : Index) (mapLength : Length) (mapPosition : Position)
    (resolution : Qc) (bufferSize : Size) (bufferStartIndex : Index)
  : option Position :=
  if checkIfIndexWithinRange index bufferSize
  then Some
    (positionOfOffset
       (getIndexFromBufferIndex index.1 bufferSize.1 bufferStartIndex.1)
       mapLength.1 mapPosition.1 resolution,
     positionOfOffset
       (getIndexFromBufferIndex index.2 bufferSize.2 bufferStartIndex.2)
       mapLength.2 mapPosition.2 resolution)
  else None.

(** Modelled from the spec: [getIndexShiftFromPositionShift],
    "indexShift = round(delta / resolution)" on each axis. *)
Definition getIndexShiftFromPositionShift
    (positionShift : Position) (resolution : Qc) : Index :=
  (round (positionShift.1 / resolution)%Qc,
   round (positionShift.2 / resolution)%Qc).

(** Modelled from the spec: [getPositionShiftFromIndexShift],
    "alignedDelta = indexShift * resolution". *)
Definition getPositionShiftFromIndexShift
    (indexShift : Index) (resolution : Qc) : Position :=
  ((QcZ indexShift.1 * resolution)%Qc, (QcZ indexShift.2 * resolution)%Qc).

End GridMapMath.

(** ** BufferRegion (grid_map_core/BufferRegion.hpp)

    Modelled from the spec: the header is not among the sources.  A region
    carries a buffer-space origin, a size, and a quadrant tag that names the
    corner of the output rectangle it fills. *)
Module BufferRegion.

Inductive Quadrant : Type :=
  Undefined | TopLeft | TopRight | BottomLeft | BottomRight.

Record t : Type := mk
  { index_ : Index;
    size_ : Size;
    quadrant_ : Quadrant }.

Definition getIndex (r : t) : Index := index_ r.
Definition getSize (r : t) : Size := size_ r.
Definition getQuadrant (r : t) : Quadrant := quadrant_ r.

End BufferRegion.

(** ** The decomposer (grid_map_core/GridMapMath.hpp) *)

Module Decomposer.
Import GridMapMath.

(** Modelled from the spec: the intervals of one axis, each with its
    start, its length and whether it is the second one.  "If
    requestedTopLeftIndex + requestedSize <= bufferSize, the range does
    not wrap, one interval suffices; otherwise it wraps and splits into
    exactly two intervals: [start, bufferSize) and
    [0, requestedSize - (bufferSize - start))". *)
Definition axisIntervals (start size bufferSize : Z) : list (Z * Z * bool) :=
  if bool_decide (start + size <= bufferSize)
  then [(start, size, false)]
  else [(start, bufferSize - start, false);
        (0, size - (bufferSize - start), true)].

(** Modelled from the spec: "each region's destination quadrant is
    computed from its position (first vs. second interval on each
    axis)". *)
Definition quadrantOf (secondRow secondCol : bool) : BufferRegion.Quadrant :=
  match secondRow, secondCol with
  | false, false => BufferRegion.TopLeft
  | false, true => BufferRegion.TopRight
  | true, false => BufferRegion.BottomLeft
  | true, true => BufferRegion.BottomRight
  end.

(** Modelled from the spec: [getBufferRegionsForSubmap], the
    decomposition of the range of [submapBufferSize] cells that starts at
    the buffer index [submapIndex]; the (at most two) row intervals
    combined with the (at most two) column intervals.  The function
    reports whether the submap can be accessed: a range that runs past
    the end of the window of the map cannot. *)
Definition getBufferRegionsForSubmap
    (submapIndex : Index) (submapBufferSize : Size)
    (bufferSize : Size) (bufferStartIndex : Index)
  : option (list BufferRegion.t) :=
  if bool_decide
       (getIndexFromBufferIndex submapIndex.1 bufferSize.1 bufferStartIndex.1
          + submapBufferSize.1 <= bufferSize.1)
     && bool_decide
       (getIndexFromBufferIndex submapIndex.2 bufferSize.2 bufferStartIndex.2
          + submapBufferSize.2 <= bufferSize.2)
  then Some
    (r ← axisIntervals submapIndex.1 submapBufferSize.1 bufferSize.1;
     c ← axisIntervals submapIndex.2 submapBufferSize.2 bufferSize.2;
     [BufferRegion.mk (r.1.1, c.1.1) (r.1.2, c.1.2) (quadrantOf r.2 c.2)])
  else None.

End Decomposer.

(** ** SubmapGeometry (grid_map_core/SubmapGeometry.hpp)

    Modelled from the spec: the header is not among the sources.  The
    record holds what [getSubmap] reads from it. *)
Module SubmapGeometry.
Import GridMapMath.

Record t : Type := mk
  { topLeftIndex_ : Index;
    size_ : Size;
    position_ : Position;
    length_ : Length;
    resolution_ : Qc }.

Definition getTopLeftIndex (s : t) : Index := topLeftIndex_ s.
Definition getSize (s : t) : Size := size_ s.
Definition getPosition (s : t) : Position := position_ s.
Definition getLength (s : t) : Length := length_ s.
Definition getResolution (s : t) : Qc := resolution_ s.

(** Modelled from the spec: the requested window fits entirely inside the
    bounds of the map. *)
Definition fitsAxis (p len mapLen c : Qc) : bool :=
  bool_decide (c - mapLen * half ≤ p - len * half)%Qc
  && bool_decide (p + len * half ≤ c + mapLen * half)%Qc.

(** Modelled from the spec: the position of the realized window on one
    axis.  It is derived from the realized size and from the resolution
    and the centre of the source map: the window starts at the edge of the
    cell of logical offset [topLeft] of the source and is [size] cells
    long. *)
Definition realizedPosition (topLeft size : Z) (mapLen c resolution : Qc)
  : Qc :=
  (c - mapLen * half + resolution * QcZ topLeft
   + QcZ size * resolution * half)%Qc.

(** Modelled from the spec: the constructor
    [SubmapGeometry(gridMap, position, length, isSuccess)], given the
    geometry of the map.  It fails if the window does not fit entirely
    inside the current map bounds.  The top-left index is the index of
    the corner of the requested window at which the logical offset 0
    lies; the size is the requested length rounded to whole cells; the
    length is the realized size times the resolution of the map. *)
Definition make (position : Position) (length : Length)
    (mapLength : Length) (mapPosition : Position) (resolution : Qc)
    (bufferSize : Size) (bufferStartIndex : Index) : option t :=
  if fitsAxis position.1 length.1 mapLength.1 mapPosition.1
     && fitsAxis position.2 length.2 mapLength.2 mapPosition.2
  then
    let topLeftPosition : Position :=
      ((position.1 - length.1 * half)%Qc, (position.2 - length.2 * half)%Qc) in
    topLeftIndex ← getIndexFromPosition topLeftPosition mapLength mapPosition
                     resolution bufferSize bufferStartIndex;
    let size : Size := (round (length.1 / resolution)%Qc,
                        round (length.2 / resolution)%Qc) in
    Some (mk topLeftIndex size
            (realizedPosition
               (offsetOfPosition topLeftPosition.1 mapLength.1 mapPosition.1
                  resolution)
               size.1 mapLength.1 mapPosition.1 resolution,
             realizedPosition
               (offsetOfPosition topLeftPosition.2 mapLength.2 mapPosition.2
                  resolution)
               size.2 mapLength.2 mapPosition.2 resolution)
            ((QcZ size.1 * resolution)%Qc, (QcZ size.2 * resolution)%Qc)
            resolution)
  else None.

End SubmapGeometry.

(** ** The class GridMap *)
Module GridMap.
Import GridMapMath.

Record t : Type := mk
  { position_ : Position;
    length_ : Length;
    resolution_ : Qc;
    size_ : Size;
    startIndex_ : Index;
    timestamp_ : Time;
    frameId_ : string;
    layers_ : list string;
    basicLayers_ : list string;
    data_ : gmap string Matrix }.

Definition with_data (d : gmap string Matrix) (g : t) : t :=
  mk (position_ g) (length_ g) (resolution_ g) (size_ g) (startIndex_ g)
     (timestamp_ g) (frameId_ g) (layers_ g) (basicLayers_ g) d.

(** [GridMap::GridMap(layers)] *)
Definition GridMap (layers : list string) : t :=
  mk (0%Qc, 0%Qc) (0%Qc, 0%Qc) 0%Qc (0, 0) (0, 0) 0 EmptyString layers []
     (foldl (λ d layer,
               match d !! layer with
               | Some _ => d
               | None => <[layer := Eigen.empty]> d
               end) ∅ layers).

Definition getSize (g : t) : Size := size_ g.
Definition getStartIndex (g : t) : Index := startIndex_ g.
Definition getLength (g : t) : Length := length_ g.
Definition getPosition' (g : t) : Position := position_ g.
Definition getResolution (g : t) : Qc := resolution_ g.
Definition getLayers (g : t) : list string := layers_ g.
Definition getBasicLayers (g : t) : list string := basicLayers_ g.
Definition getTimestamp (g : t) : Time := timestamp_ g.
Definition getFrameId (g : t) : string := frameId_ g.

(** [GridMap::resize] *)
Definition resize (size : Size) (g : t) : t :=
  mk (position_ g) (length_ g) (resolution_ g) size (startIndex_ g)
     (timestamp_ g) (frameId_ g) (layers_ g) (basicLayers_ g)
     (Eigen.resize size.1 size.2 <$> data_ g).

(** [GridMap::clearAll] *)
Definition clearAll (g : t) : t :=
  with_data (Eigen.setConstant NAN <$> data_ g) g.

(** [GridMap::clear]; [data_.at] throws for a layer that is not there. *)
Definition clear (layer : string) (g : t) : option t :=
  m ← data_ g !! layer;
  Some (with_data (<[layer := Eigen.setConstant NAN m]> (data_ g)) g).

(** A loop [for (auto& layer : layers) body(layer)] over a method that
    may throw. *)
Fixpoint forLayers (body : string → t → option t) (layers : list string)
    (g : t) : option t :=
  match layers with
  | [] => Some g
  | layer :: rest => g' ← body layer g; forLayers body rest g'
  end.

(** [GridMap::clearBasic] *)
Definition clearBasic (g : t) : option t :=
  forLayers clear (basicLayers_ g) g.

Definition clearBlock (i j nr nc : Z) (layer : string) (g : t) : option t :=
  m ← data_ g !! layer;
  m' ← Eigen.block_setConstant i j nr nc NAN m;
  Some (with_data (<[layer := m']> (data_ g)) g).

(** [GridMap::clearCols]: the block starts at row [index] and column 0
    and has [nCols] rows and [getSize()(1)] columns. *)
Definition clearCols (index nCols : Z) (g : t) : option t :=
  forLayers (clearBlock index 0 nCols (getSize g).2) (basicLayers_ g) g.

(** [GridMap::clearRows]: the block starts at row 0 and column [index]
    and has [getSize()(0)] rows and [nRows] columns. *)
Definition clearRows (index nRows : Z) (g : t) : option t :=
  forLayers (clearBlock 0 index (getSize g).1 nRows) (basicLayers_ g) g.

(** [GridMap::setGeometry(length, resolution, position)]; the three
    assertions come first.  The quotient and the product are the exact
    ones: they are the values of the code where its binary64 division and
    multiplication are exact and the rounded quotient fits [int]. *)
Definition setGeometry (length : Length) (resolution : Qc)
    (position : Position) (g : t) : option t :=
  if bool_decide (0 < length.1)%Qc && bool_decide (0 < length.2)%Qc
     && bool_decide (0 < resolution)%Qc
  then
    let size : Size := (round (length.1 / resolution)%Qc,
                        round (length.2 / resolution)%Qc) in
    let g1 := clearAll (resize size g) in
    Some (mk position
             ((QcZ (size_ g1).1 * resolution)%Qc,
              (QcZ (size_ g1).2 * resolution)%Qc)
             resolution (size_ g1) (0, 0)
             (timestamp_ g1) (frameId_ g1) (layers_ g1) (basicLayers_ g1)
             (data_ g1))
  else None.

(** [GridMap::setBasicLayers] *)
Definition setBasicLayers (basicLayers : list string) (g : t) : t :=
  mk (position_ g) (length_ g) (resolution_ g) (size_ g) (startIndex_ g)
     (timestamp_ g) (frameId_ g) (layers_ g) basicLayers (data_ g).

Definition setTimestamp (timestamp : Time) (g : t) : t :=
  mk (position_ g) (length_ g) (resolution_ g) (size_ g) (startIndex_ g)
     timestamp (frameId_ g) (layers_ g) (basicLayers_ g) (data_ g).

Definition setFrameId (frameId : string) (g : t) : t :=
  mk (position_ g) (length_ g) (resolution_ g) (size_ g) (startIndex_ g)
     (timestamp_ g) frameId (layers_ g) (basicLayers_ g) (data_ g).

(** [GridMap::setStartIndex] *)
Definition setStartIndex (startIndex : Index) (g : t) : t :=
  mk (position_ g) (length_ g) (resolution_ g) (size_ g) startIndex
     (timestamp_ g) (frameId_ g) (layers_ g) (basicLayers_ g) (data_ g).

(** [GridMap::exists] *)
Definition exists_ (layer : string) (g : t) : bool :=
  bool_decide (is_Some (data_ g !! layer)).

(** [GridMap::add(layer, data)]; the two assertions come first. *)
Definition add (layer : string) (data : Matrix) (g : t) : option t :=
  if bool_decide ((size_ g).1 = Eigen.rows data)
     && bool_decide ((size_ g).2 = Eigen.cols data)
  then
    if exists_ layer g
    then Some (with_data (<[layer := data]> (data_ g)) g)
    else Some (mk (position_ g) (length_ g) (resolution_ g) (size_ g)
                  (startIndex_ g) (timestamp_ g) (frameId_ g)
                  (layers_ g ++ [layer]) (basicLayers_ g)
                  (<[layer := data]> (data_ g)))
  else None.

(** [GridMap::add(layer, value)] *)
Definition add_value (layer : string) (value : cell) (g : t) : option t :=
  add layer (Eigen.Constant (size_ g).1 (size_ g).2 value) g.

(** [std::find] followed by [erase]: the first occurrence is removed. *)
Fixpoint eraseFirst (layer : string) (l : list string) : list string :=
  match l with
  | [] => []
  | x :: rest => if decide (x = layer) then rest else x :: eraseFirst layer rest
  end.

(** [GridMap::erase] *)
Definition erase (layer : string) (g : t) : bool * t :=
  match data_ g !! layer with
  | None => (false, g)
  | Some _ =>
    let g1 := with_data (delete layer (data_ g)) g in
    if bool_decide (layer ∈ layers_ g1)
    then
      (true,
       mk (position_ g1) (length_ g1) (resolution_ g1) (size_ g1)
          (startIndex_ g1) (timestamp_ g1) (frameId_ g1)
          (eraseFirst layer (layers_ g1))
          (eraseFirst layer (basicLayers_ g1)) (data_ g1))
    else (false, g1)
  end.

(** [GridMap::get] *)
Definition get (layer : string) (g : t) : option Matrix := data_ g !! layer.

(** [GridMap::at] *)
Definition at_ (layer : string) (index : Index) (g : t) : option cell :=
  m ← data_ g !! layer;
  Eigen.get m index.1 index.2.

(** [GridMap::getIndex] *)
Definition getIndex (position : Position) (g : t) : option Index :=
  getIndexFromPosition position (length_ g) (position_ g) (resolution_ g)
    (size_ g) (startIndex_ g).

(** [GridMap::getPosition(index, position)] *)
Definition getPosition (index : Index) (g : t) : option Position :=
  getPositionFromIndex index (length_ g) (position_ g) (resolution_ g)
    (size_ g) (startIndex_ g).

(** [GridMap::isInside] *)
Definition isInside (position : Position) (g : t) : bool :=
  checkIfPositionWithinMap position (length_ g) (position_ g).

(** [GridMap::atPosition] *)
Definition atPosition (layer : string) (position : Position) (g : t)
  : option cell :=
  index ← getIndex position g;
  at_ layer index g.

(** [GridMap::isValid(index, layer)] *)
Definition isValid_layer (index : Index) (layer : string) (g : t)
  : option bool :=
  v ← at_ layer index g;
  if negb (isfinite v) then Some false else Some true.

(** The loop of [GridMap::isValid(index, layers)]. *)
Fixpoint isValid_loop (index : Index) (layers : list string) (g : t)
  : option bool :=
  match layers with
  | [] => Some true
  | layer :: rest =>
    v ← at_ layer index g;
    if negb (isfinite v) then Some false else isValid_loop index rest g
  end.

(** [GridMap::isValid(index, layers)] *)
Definition isValid_layers (index : Index) (layers : list string) (g : t)
  : option bool :=
  match layers with
  | [] => Some false
  | _ => isValid_loop index layers g
  end.

(** [GridMap::isValid(index)] *)
Definition isValid (index : Index) (g : t) : option bool :=
  isValid_layers index (basicLayers_ g) g.

(** [GridMap::getVector]: [Some v] for [true] with the vector [v], [None]
    for [false], which leaves the vector of the caller as it was.  A
    [float] converts to [double] without loss, so that the components are
    kept as cell values. *)
Definition getVector (layerPrefix : string) (index : Index) (g : t)
  : option (option (cell * cell * cell)) :=
  let layers :=
    [layerPrefix +:+ "x"; layerPrefix +:+ "y"; layerPrefix +:+ "z"] in
  valid ← isValid_layers index layers g;
  if negb valid then Some None
  else
    x ← at_ (layerPrefix +:+ "x") index g;
    y ← at_ (layerPrefix +:+ "y") index g;
    z ← at_ (layerPrefix +:+ "z") index g;
    Some (Some (x, y, z)).

(** [GridMap::resetTimestamp] *)
Definition resetTimestamp (g : t) : t := setTimestamp 0 g.

(** The local [struct Lines] of [GridMap::move]. *)
Module Lines.
Record t : Type := mk { index_ : Z; size_ : Z }.
End Lines.

(** The state of the loop of [move]: the map and the two line vectors. *)
Definition MoveState : Type := t * list Lines.t * list Lines.t.

(** [if (i == 0) { clearCols(index, n); colLines.push_back(lines); }
     if (i == 1) { clearRows(index, n); rowLines.push_back(lines); }] *)
Definition dropLines (i : nat) (index nCells : Z) (st : MoveState)
  : option MoveState :=
  let '(g, colLines, rowLines) := st in
  let lines := Lines.mk index nCells in
  match i with
  | 0%nat => g' ← clearCols index nCells g;
             Some (g', colLines ++ [lines], rowLines)
  | 1%nat => g' ← clearRows index nCells g;
             Some (g', colLines, rowLines ++ [lines])
  | _ => Some st
  end.

(** The body of the loop "Delete fields that fall out of map" for the
    axis [i]. *)
Definition moveAxis (indexShift : Index) (i : nat) (st : MoveState)
  : option MoveState :=
  let '(g, colLines, rowLines) := st in
  if bool_decide (coord i indexShift ≠ 0) then
    if bool_decide (Z.abs (coord i indexShift) >= coord i (getSize g)) then
      (* Entire map is dropped. *)
      Some (clearAll g, colLines, rowLines)
    else
      (* Drop cells out of map. *)
      let sign := if bool_decide (coord i indexShift > 0) then 1 else -1 in
      let startIndex :=
        coord i (startIndex_ g) - (if bool_decide (sign < 0) then 1 else 0) in
      let endIndex := startIndex - sign + coord i indexShift in
      let nCells := Z.abs (coord i indexShift) in
      let index :=
        mapIndexWithinRange
          (if bool_decide (sign > 0) then startIndex else endIndex)
          (coord i (getSize g)) in
      if bool_decide (index + nCells <= coord i (getSize g)) then
        (* One region to drop. *)
        dropLines i index nCells st
      else
        (* Two regions to drop. *)
        let firstIndex := index in
        let firstNCells := coord i (getSize g) - firstIndex in
        st1 ← dropLines i firstIndex firstNCells st;
        let secondIndex := 0 in
        let secondNCells := nCells - firstNCells in
        dropLines i secondIndex secondNCells st1
  else Some st.

(** [GridMap::move(position, newRegionIndeces, newRegionSizes)]; the two
    vectors are passed in and returned extended. *)
Definition move (position : Position)
    (newRegionIndeces : list Index) (newRegionSizes : list Size) (g : t)
  : option (bool * t * list Index * list Size) :=
  let positionShift : Position :=
    ((position.1 - (position_ g).1)%Qc, (position.2 - (position_ g).2)%Qc) in
  let indexShift :=
    getIndexShiftFromPositionShift positionShift (resolution_ g) in
  let alignedPositionShift :=
    getPositionShiftFromIndexShift indexShift (resolution_ g) in
  st0 ← moveAxis indexShift 0 (g, [], []);
  st1 ← moveAxis indexShift 1 st0;
  let '(g1, colLines, rowLines) := st1 in
  (* Update information. *)
  let g2 :=
    mk ((position_ g1).1 + alignedPositionShift.1,
        (position_ g1).2 + alignedPositionShift.2)%Qc
       (length_ g1) (resolution_ g1) (size_ g1)
       (mapIndexWithinRange2
          ((startIndex_ g1).1 + indexShift.1, (startIndex_ g1).2 + indexShift.2)
          (getSize g1))
       (timestamp_ g1) (frameId_ g1) (layers_ g1) (basicLayers_ g1)
       (data_ g1) in
  (* Retrieve cell indices that cover new area. *)
  let colIndeces :=
    (λ lines, (0, Lines.index_ lines) : Index) <$> colLines in
  let colSizes :=
    (λ lines, ((getSize g2).1, Lines.size_ lines) : Size) <$> colLines in
  let rowIndeces :=
    (λ lines, (Lines.index_ lines, 0) : Index) <$> rowLines in
  let rowSizes :=
    (λ lines, (Lines.size_ lines, (getSize g2).2) : Size) <$> rowLines in
  (* Check if map has been moved at all. *)
  Some (bool_decide (indexShift.1 ≠ 0) || bool_decide (indexShift.2 ≠ 0),
        g2,
        newRegionIndeces ++ colIndeces ++ rowIndeces,
        newRegionSizes ++ colSizes ++ rowSizes).

(** [GridMap::setGeometry(const SubmapGeometry&)] *)
Definition setGeometry' (geometry : SubmapGeometry.t) (g : t) : option t :=
  setGeometry (SubmapGeometry.getLength geometry)
    (SubmapGeometry.getResolution geometry)
    (SubmapGeometry.getPosition geometry) g.

(** One assignment of the copy loop of [getSubmap]:
    [dst.<quadrant>Corner(size(0), size(1))
       = src.block(index(0), index(1), size(0), size(1))]. *)
Definition copyRegion (src : Matrix) (bufferRegion : BufferRegion.t)
    (dst : Matrix) : option Matrix :=
  let index := BufferRegion.getIndex bufferRegion in
  let size := BufferRegion.getSize bufferRegion in
  let assign (corner : Z * Z) :=
    Eigen.block_assign corner.1 corner.2 src index.1 index.2 size.1 size.2
      dst in
  match BufferRegion.getQuadrant bufferRegion with
  | BufferRegion.TopLeft => assign (Eigen.topLeftCorner dst size.1 size.2)
  | BufferRegion.TopRight => assign (Eigen.topRightCorner dst size.1 size.2)
  | BufferRegion.BottomLeft =>
      assign (Eigen.bottomLeftCorner dst size.1 size.2)
  | BufferRegion.BottomRight =>
      assign (Eigen.bottomRightCorner dst size.1 size.2)
  | BufferRegion.Undefined => Some dst
  end.

(** The inner loop [for (const auto& bufferRegion : bufferRegions)]. *)
Fixpoint copyRegions (src : Matrix) (bufferRegions : list BufferRegion.t)
    (dst : Matrix) : option Matrix :=
  match bufferRegions with
  | [] => Some dst
  | bufferRegion :: rest =>
    dst' ← copyRegion src bufferRegion dst; copyRegions src rest dst'
  end.

(** The outer loop [for (auto& data : data_)]; [submap.data_[name]]
    creates an empty matrix for a name that is not there. *)
Fixpoint copyData (data : list (string * Matrix))
    (bufferRegions : list BufferRegion.t) (submap : t) : option t :=
  match data with
  | [] => Some submap
  | (name, src) :: rest =>
    dst ← copyRegions src bufferRegions
             (default Eigen.empty (data_ submap !! name));
    copyData rest bufferRegions
      (with_data (<[name := dst]> (data_ submap)) submap)
  end.

(** [GridMap::getSubmap(position, length, indexInSubmap, isSuccess)]:
    the map itself, the returned map and [isSuccess]. *)
Definition getSubmap (position : Position) (length : Length) (g : t)
  : option (t * t * bool) :=
  (* Submap to generate. *)
  let submap :=
    setFrameId (frameId_ g)
      (setTimestamp (timestamp_ g)
         (setBasicLayers (basicLayers_ g) (GridMap (layers_ g)))) in
  (* Get submap geometric information. *)
  match SubmapGeometry.make position length (length_ g) (position_ g)
          (resolution_ g) (size_ g) (startIndex_ g) with
  | None => Some (g, GridMap (layers_ g), false)
  | Some submapInformation =>
    submap ← setGeometry' submapInformation submap;
    let submap := setStartIndex (0, 0) submap in
    (* Copy data. *)
    match Decomposer.getBufferRegionsForSubmap
            (SubmapGeometry.getTopLeftIndex submapInformation)
            (getSize submap) (size_ g) (startIndex_ g) with
    | None => Some (g, GridMap (layers_ g), false)
    | Some bufferRegions =>
      submap ← copyData (map_to_list (data_ g)) bufferRegions submap;
      Some (g, submap, true)
    end
  end.

(** [GridMap::move(position)] *)
Definition move' (position : Position) (g : t) : option (bool * t) :=
  r ← move position [] [] g;
  Some (r.1.1).

End GridMap.

(** * Vocabulary of the properties *)

Import GridMapMath GridMap.

(** ** Well-formed maps (the invariants of the data model) *)

(** Every buffer has the dimensions [size], which are not negative. *)
Definition dimsOk (g : GridMap.t) : Prop :=
  0 <= (size_ g).1 ∧ 0 <= (size_ g).2 ∧
  map_Forall (λ _ m, Eigen.rows m = (size_ g).1 ∧ Eigen.cols m = (size_ g).2)
             (data_ g).

(** Every basic layer is a layer of the map. *)
Definition basicOk (g : GridMap.t) : Prop :=
  Forall (λ layer, is_Some (data_ g !! layer)) (basicLayers_ g).

(** [startIndex] lies in [0, size) on each axis. *)
Definition startOk (g : GridMap.t) : Prop :=
  0 <= (startIndex_ g).1 < (size_ g).1 ∧ 0 <= (startIndex_ g).2 < (size_ g).2.

Definition indexOk (size : Size) (index : Index) : Prop :=
  0 <= index.1 < size.1 ∧ 0 <= index.2 < size.2.

Global Instance dimsOk_dec g : Decision (dimsOk g).
Proof. unfold dimsOk. apply _. Defined.
Global Instance basicOk_dec g : Decision (basicOk g).
Proof. unfold basicOk. apply _. Defined.
Global Instance startOk_dec g : Decision (startOk g).
Proof. unfold startOk. apply _. Defined.
Global Instance indexOk_dec size index : Decision (indexOk size index).
Proof. unfold indexOk. apply _. Defined.

(** The names of [layers_] are distinct and are the keys of [data_]. *)
Definition layersOk (g : GridMap.t) : Prop :=
  NoDup (layers_ g) ∧ ∀ layer, layer ∈ layers_ g ↔ is_Some (data_ g !! layer).

(** [sameShape g g']: [g'] differs from [g] in the contents of the buffers
    at most; the layers and the dimensions of each buffer are the same. *)
Definition sameShape (g g' : GridMap.t) : Prop :=
  g' = with_data (data_ g') g
  ∧ ∀ layer,
      option_Forall2
        (λ m m', Eigen.rows m' = Eigen.rows m ∧ Eigen.cols m' = Eigen.cols m)
        (data_ g !! layer) (data_ g' !! layer).

(** ** What a call clears

    [dataCleared P d d']: the buffers [d'] are the buffers [d] with NaN
    written into every cell that [P] selects, and nothing else changed. *)
Definition cellsCleared (P : Z → Z → bool) (m m' : Matrix) : Prop :=
  Eigen.rows m' = Eigen.rows m ∧ Eigen.cols m' = Eigen.cols m
  ∧ ∀ a b, 0 <= a < Eigen.rows m → 0 <= b < Eigen.cols m →
      Eigen.coeff m' a b = if P a b then NAN else Eigen.coeff m a b.

Definition dataCleared (P : string → Z → Z → bool)
    (d d' : gmap string Matrix) : Prop :=
  ∀ layer, option_Forall2 (cellsCleared (P layer)) (d !! layer) (d' !! layer).

(** [clearedBy P g g']: [g'] is [g] with the cells that [P] selects
    cleared; every other member is the same. *)
Definition clearedBy (P : string → Z → Z → bool) (g g' : GridMap.t) : Prop :=
  g' = with_data (data_ g') g ∧ dataCleared P (data_ g) (data_ g').

(** The cells of the band of [nCells] lines that starts at the line [index]
    of the axis [i] and wraps around at [n]. *)
Definition inBand (index nCells n c : Z) : bool := (c - index) mod n <? nCells.

(** The cells that [moveAxis] clears for the axis [i]. *)
Definition axisCleared (g : GridMap.t) (indexShift : Index) (i : nat)
    (layer : string) (a b : Z) : bool :=
  let s := coord i indexShift in
  let n := coord i (size_ g) in
  if bool_decide (s = 0) then false
  else if bool_decide (Z.abs s >= n) then true
  else bool_decide (layer ∈ basicLayers_ g)
       && inBand (mapIndexWithinRange
                    (if bool_decide (s > 0) then coord i (startIndex_ g)
                     else coord i (startIndex_ g) + s) n)
            (Z.abs s) n (coord i (a, b)).

(** The index shift that [move] computes for a target position. *)
Definition indexShiftOf (position : Position) (g : GridMap.t) : Index :=
  getIndexShiftFromPositionShift
    ((position.1 - (position_ g).1)%Qc, (position.2 - (position_ g).2)%Qc)
    (resolution_ g).

(** The cells that [move] clears. *)
Definition moveCleared (g : GridMap.t) (indexShift : Index)
    (layer : string) (a b : Z) : bool :=
  axisCleared g indexShift 0 layer a b || axisCleared g indexShift 1 layer a b.

(** The logical offset of a buffer index, on both axes. *)
Definition logicalIndex (g : GridMap.t) (index : Index) : Index :=
  (getIndexFromBufferIndex index.1 (size_ g).1 (startIndex_ g).1,
   getIndexFromBufferIndex index.2 (size_ g).2 (startIndex_ g).2).

(** A cell that has the logical offset [l] after a move by [indexShift] lies
    where the logical offset [l + indexShift] of the window before the move
    lay: the centre of the window advanced by [indexShift] cells. *)
Definition logicalBeforeMove (indexShift : Index) (l : Index) : Index :=
  (l.1 + indexShift.1, l.2 + indexShift.2).

(** The regions of the decomposer for a range that fits the window. *)
Definition regionsOf (t m n : Index) : list BufferRegion.t :=
  r ← Decomposer.axisIntervals t.1 m.1 n.1;
  c ← Decomposer.axisIntervals t.2 m.2 n.2;
  [BufferRegion.mk (r.1.1, c.1.1) (r.1.2, c.1.2) (Decomposer.quadrantOf r.2 c.2)].

(** The requested window lies inside the bounds of the map. *)
Definition windowFits (position : Position) (length : Length)
    (g : GridMap.t) : Prop :=
  ((position_ g).1 - (length_ g).1 * half ≤ position.1 - length.1 * half
   ∧ position.1 + length.1 * half ≤ (position_ g).1 + (length_ g).1 * half
   ∧ (position_ g).2 - (length_ g).2 * half ≤ position.2 - length.2 * half
   ∧ position.2 + length.2 * half ≤ (position_ g).2 + (length_ g).2 * half)%Qc.

(** ** Worked examples *)

Definition finiteCell (n : Z) : cell := S754_finite false (Z.to_pos n) 0.

(** A 3 x 2 buffer with the values 1 to 6. *)
Definition exampleData : Matrix :=
  Eigen.mkMatrix 3 2 (λ i j, finiteCell (1 + 2 * i + j)).

(** A map of 3 x 2 cells of resolution 1 around the origin, with the basic
    layer "elevation" and the layer "color". *)
Definition exampleMap : GridMap.t :=
  GridMap.mk (0%Qc, 0%Qc) ((QcZ 3 * 1)%Qc, (QcZ 2 * 1)%Qc) 1%Qc (3, 2) (0, 0)
    0 EmptyString ["elevation"; "color"] ["elevation"]
    (<["elevation" := exampleData]> (<["color" := exampleData]> ∅)).

(** The same map after its window has wrapped around on both axes. *)
Definition wrappedMap : GridMap.t := setStartIndex (1, 1) exampleMap.

(** The submap of 2 x 2 cells around (1/2, 0). *)
Definition exampleSubmap : GridMap.t :=
  match getSubmap (half, 0%Qc) (QcZ 2, QcZ 2) wrappedMap with
  | Some (_, submap, _) => submap
  | None => GridMap []
  end.

(** The map of the example of the specification: 10 x 10 cells of resolution
    1 around the origin, one basic layer. *)
Definition specExampleMap : GridMap.t :=
  GridMap.mk (0%Qc, 0%Qc) ((QcZ 10 * 1)%Qc, (QcZ 10 * 1)%Qc) 1%Qc (10, 10)
    (0, 0) 0 EmptyString ["elevation"] ["elevation"]
    {["elevation" := Eigen.Constant 10 10 (finiteCell 1)]}.

(** The cells of the region with the given index and size. *)
Definition inRegion (index : Index) (size : Size) (c : Index) : bool :=
  Eigen.inBlock index.1 index.2 size.1 size.2 c.1 c.2.

Global Instance windowFits_dec position length g :
  Decision (windowFits position length g).
Proof. unfold windowFits. apply _. Defined.

(** ** Machine numbers

    [isDouble x]: the rational [x] is a finite binary64 number, a
    significand of at most 53 bits times a power of two of the exponent
    range.  A binary64 operation returns the exact result rounded; when
    the exact result of two binary64 operands is a binary64 number, that
    number is what the operation returns. *)
Definition isDouble (x : Qc) : Prop :=
  ∃ m e : Z, Z.abs m < 2 ^ 53 ∧ -1074 <= e <= 971
             ∧ (this x == inject_Z m * 2 ^ e)%Q.

(** The largest [int]. *)
Definition INT_MAX : Z := 2147483647.

(** One axis of a call of [setGeometry] on which the code computes what
    the model computes: the operands are binary64 numbers, the quotient
    [length / resolution] is one, so that the division is exact, its
    rounded value fits [int], so that the cast is defined, and the
    product of the size and the resolution is one, so that the
    multiplication is exact. *)
Definition exactAxis (length resolution : Qc) : Prop :=
  isDouble length ∧ isDouble resolution
  ∧ isDouble (length / resolution)%Qc
  ∧ round (length / resolution)%Qc <= INT_MAX
  ∧ isDouble (QcZ (round (length / resolution)%Qc) * resolution)%Qc.

Definition exactGeometry (length : Length) (resolution : Qc) : Prop :=
  exactAxis length.1 resolution ∧ exactAxis length.2 resolution.

(** * Properties *)

(** ** Arithmetic of the rationals and of the modular reduction *)

Lemma Qc_pos_neq0 (r : Qc) : (0 < r)%Qc → r ≠ 0%Qc.
Proof. intros Hr ->. by apply Qclt_not_eq in Hr. Qed.

Lemma floorQc_QcZ_half (l : Z) : floorQc (QcZ l + half)%Qc = l.
Proof.
  unfold floorQc, half, Qcplus. simpl this.
  rewrite !Qred_correct.
  unfold Qfloor, Qplus. simpl.
  rewrite Z.mul_1_r.
  replace (l * 2 + 1) with (1 + l * 2) by lia.
  rewrite Z.div_add by lia. reflexivity.
Qed.

Lemma round_0 : round 0%Qc = 0.
Proof. reflexivity. Qed.

Lemma offsetOfPosition_positionOfOffset (l : Z) (len c r : Qc) :
  (0 < r)%Qc → offsetOfPosition (positionOfOffset l len c r) len c r = l.
Proof.
  intros Hr. unfold offsetOfPosition, positionOfOffset.
  replace ((c - len * half + r * (QcZ l + half) - (c - len * half)) / r)%Qc
    with (QcZ l + half)%Qc.
  - apply floorQc_QcZ_half.
  - field. by apply Qc_pos_neq0.
Qed.

(** The four possible values of [x mod n] for [x] within two periods. *)
Lemma mod_cases (x n : Z) :
  0 < n → - (2 * n) <= x < 2 * n →
  (x < - n ∧ x mod n = x + 2 * n) ∨ (- n <= x < 0 ∧ x mod n = x + n) ∨
  (0 <= x < n ∧ x mod n = x) ∨ (n <= x ∧ x mod n = x - n).
Proof.
  intros Hn Hx.
  destruct (Z_lt_le_dec x (- n)); [left|right].
  { split; [lia|]. symmetry. apply (Z.mod_unique_pos x n (-2)); lia. }
  destruct (Z_lt_le_dec x 0); [left|right].
  { split; [lia|]. symmetry. apply (Z.mod_unique_pos x n (-1)); lia. }
  destruct (Z_lt_le_dec x n); [left|right].
  { split; [lia|]. apply Z.mod_small; lia. }
  split; [lia|]. symmetry. apply (Z.mod_unique_pos x n 1); lia.
Qed.

(** Resolve every [_ mod n] of the goal into a linear expression. *)
Ltac mod_split n Hn :=
  repeat match goal with
  | |- context [?x mod n] =>
      let H := fresh "Hmod" in
      let E := fresh "Emod" in
      let k := fresh "k" in
      pose proof (mod_cases x n Hn ltac:(lia)) as H;
      remember (x mod n) as k eqn:E; clear E
  | H0 : context [?x mod n] |- _ =>
      let H := fresh "Hmod" in
      let E := fresh "Emod" in
      let k := fresh "k" in
      pose proof (mod_cases x n Hn ltac:(lia)) as H;
      remember (x mod n) as k eqn:E; clear E
  end.

(** From [Qc] to [Q], where [lra] and [nra] work. *)
Lemma this_plus (x y : Qc) : (this (x + y)%Qc == this x + this y)%Q.
Proof. apply Qred_correct. Qed.

Lemma this_opp (x : Qc) : (this (- x)%Qc == - this x)%Q.
Proof. apply Qred_correct. Qed.

Lemma this_minus (x y : Qc) : (this (x - y)%Qc == this x - this y)%Q.
Proof. unfold Qcminus. rewrite this_plus, this_opp. reflexivity. Qed.

Lemma this_mult (x y : Qc) : (this (x * y)%Qc == this x * this y)%Q.
Proof. apply Qred_correct. Qed.

Lemma this_QcZ (z : Z) : this (QcZ z) = inject_Z z.
Proof. reflexivity. Qed.

Lemma this_half : this half = (1 # 2)%Q.
Proof. reflexivity. Qed.

Ltac qc_to_q :=
  unfold Qcle, Qclt in *;
  repeat (rewrite ?this_plus, ?this_minus, ?this_mult, ?this_opp,
            ?this_QcZ, ?this_half in * );
  change (this (Q2Qc 0)) with 0%Q in *; change (inject_Z 0) with 0%Q in *.

Lemma inject_Z_lt_le (a b : Z) : a < b → (inject_Z a + 1 <= inject_Z b)%Q.
Proof.
  intros. change 1%Q with (inject_Z 1).
  rewrite <- (inject_Z_plus a 1). rewrite <- Zle_Qle. lia.
Qed.

(** The centre of a cell of the window lies in the window. *)
Lemma withinAxis_positionOfOffset (l n : Z) (c r : Qc) :
  (0 < r)%Qc → 0 <= l < n →
  withinAxis (positionOfOffset l (QcZ n * r)%Qc c r) (QcZ n * r)%Qc c = true.
Proof.
  intros Hr [Hl0 Hln]. unfold withinAxis, positionOfOffset.
  apply inject_Z_lt_le in Hln. rewrite (Zle_Qle 0 l) in Hl0.
  apply andb_true_intro; split; apply bool_decide_eq_true_2; qc_to_q; nra.
Qed.

(** Wrapping and unwrapping an index with the same start index. *)
Lemma getBufferIndex_getIndex (index n start : Z) :
  0 <= index < n → 0 <= start < n →
  getBufferIndexFromIndex (getIndexFromBufferIndex index n start) n start
  = index.
Proof.
  intros Hi Hs. unfold getBufferIndexFromIndex, getIndexFromBufferIndex,
    mapIndexWithinRange.
  assert (Hn : 0 < n) by lia.
  mod_split n Hn. lia.
Qed.

Lemma getIndexFromBufferIndex_range (index n start : Z) :
  0 < n → 0 <= getIndexFromBufferIndex index n start < n.
Proof. intros. apply Z.mod_pos_bound. lia. Qed.

(** ** isValid *)

(** C10: [isValid(index, layers)] with an empty list of layers is false,
    whatever the index; so [isValid(index)] is false for every index on a
    map without basic layers. *)
Theorem isValid_empty_layers_false (index : Index) (g : GridMap.t) :
  isValid_layers index [] g = Some false
  ∧ (basicLayers_ g = [] → isValid index g = Some false).
Proof.
  split; [reflexivity|].
  intros Hb. unfold isValid. rewrite Hb. reflexivity.
Qed.

(** ** setGeometry *)


(** ** The converter *)

(** C2: on a map with a positive resolution, whose length is its size times
    the resolution and whose start index is in range, the position of every
    index of the buffer exists, and its index is the index one started
    from. *)
Theorem getIndex_getPosition_roundtrip (g : GridMap.t) (index : Index) :
  (0 < resolution_ g)%Qc →
  length_ g = ((QcZ (size_ g).1 * resolution_ g)%Qc,
               (QcZ (size_ g).2 * resolution_ g)%Qc) →
  startOk g → indexOk (size_ g) index →
  ∃ position, getPosition index g = Some position
              ∧ getIndex position g = Some index.
Proof.
  intros Hr Hlen [Hs1 Hs2] [Hi1 Hi2].
  unfold getPosition, getIndex, getPositionFromIndex, getIndexFromPosition.
  assert (checkIfIndexWithinRange index (size_ g) = true) as ->.
  { unfold checkIfIndexWithinRange.
    repeat (apply andb_true_intro; split); lia. }
  eexists. split; [reflexivity|]. rewrite Hlen. simpl.
  pose proof (getIndexFromBufferIndex_range index.1 (size_ g).1
                (startIndex_ g).1 ltac:(lia)) as Hl1.
  pose proof (getIndexFromBufferIndex_range index.2 (size_ g).2
                (startIndex_ g).2 ltac:(lia)) as Hl2.
  unfold checkIfPositionWithinMap. simpl.
  rewrite !withinAxis_positionOfOffset by done. simpl.
  rewrite !offsetOfPosition_positionOfOffset by done.
  rewrite !getBufferIndex_getIndex by done.
  by destruct index.
Qed.

(** ** move *)

Lemma moveAxis_no_shift (i : nat) (st : MoveState) :
  moveAxis (0, 0) i st = Some st.
Proof.
  destruct st as [[g colLines] rowLines]. unfold moveAxis.
  rewrite bool_decide_eq_false_2; [done|].
  destruct i; simpl; lia.
Qed.

Lemma getIndexShift_no_shift (p1 p2 r : Qc) :
  getIndexShiftFromPositionShift ((p1 - p1)%Qc, (p2 - p2)%Qc) r = (0, 0).
Proof.
  unfold getIndexShiftFromPositionShift.
  assert (Hz : ∀ x : Qc, ((x - x) / r)%Qc = 0%Qc).
  { intros. unfold Qcdiv. ring. }
  cbn [fst snd]. rewrite !Hz, round_0. done.
Qed.

(** C9, as the code has it: on a map with a positive resolution and a
    positive size, [move] to the current position returns false and
    appends no region; what it returns is the map it was given with the
    start index reduced into the range of the size, every other member
    and every cell being the same.  The map comes back unchanged exactly
    when its start index was in range. *)
Theorem move_to_current_position (g : GridMap.t)
    (newRegionIndeces : list Index) (newRegionSizes : list Size) :
  (0 < resolution_ g)%Qc → 0 < (size_ g).1 → 0 < (size_ g).2 →
  move (position_ g) newRegionIndeces newRegionSizes g
  = Some (false,
          setStartIndex (mapIndexWithinRange2 (startIndex_ g) (size_ g)) g,
          newRegionIndeces, newRegionSizes)
  ∧ startOk (setStartIndex (mapIndexWithinRange2 (startIndex_ g) (size_ g)) g)
  ∧ (setStartIndex (mapIndexWithinRange2 (startIndex_ g) (size_ g)) g = g
     ↔ startOk g).
Proof.
  intros _ Hs1 Hs2. split; [|split].
  - unfold move.
    rewrite getIndexShift_no_shift, moveAxis_no_shift.
    cbn [mbind option_bind]. rewrite moveAxis_no_shift.
    cbn [mbind option_bind fst snd fmap list_fmap].
    unfold getPositionShiftFromIndexShift, getSize, setStartIndex.
    cbn [fst snd]. rewrite !Z.add_0_r.
    rewrite !app_nil_r. unfold QcZ. rewrite Z2Qc_inj_0.
    destruct g as [[p1 p2] len r sz [s1 s2] ts fid ls bls d].
    cbn [position_ length_ resolution_ size_ startIndex_ timestamp_ frameId_
         layers_ basicLayers_ data_ fst snd].
    replace (p1 + 0 * r)%Qc with p1 by ring.
    replace (p2 + 0 * r)%Qc with p2 by ring. reflexivity.
  - unfold startOk, setStartIndex, mapIndexWithinRange2, mapIndexWithinRange.
    cbn [startIndex_ size_ fst snd].
    split; apply Z.mod_pos_bound; lia.
  - unfold startOk, setStartIndex, mapIndexWithinRange2, mapIndexWithinRange.
    destruct g as [p len r [n1 n2] [s1 s2] ts fid ls bls d].
    cbn [position_ length_ resolution_ size_ startIndex_ timestamp_ frameId_
         layers_ basicLayers_ data_ fst snd] in *.
    split.
    + intros H. injection H as H1 H2.
      pose proof (Z.mod_pos_bound s1 n1 Hs1). pose proof (Z.mod_pos_bound s2 n2 Hs2).
      lia.
    + intros [H1 H2]. by rewrite !Z.mod_small by lia.
Qed.

Lemma with_data_id (g : GridMap.t) : with_data (data_ g) g = g.
Proof. by destruct g. Qed.

Lemma clearedBy_refl (g : GridMap.t) : clearedBy (λ _ _ _, false) g g.
Proof.
  split; [by rewrite with_data_id|].
  intros layer. destruct (data_ g !! layer); constructor.
  by repeat split.
Qed.

Lemma clearedBy_trans P Q (g g1 g2 : GridMap.t) :
  clearedBy P g g1 → clearedBy Q g1 g2 →
  clearedBy (λ layer a b, P layer a b || Q layer a b) g g2.
Proof.
  intros [Hf1 Hd1] [Hf2 Hd2]. split.
  { rewrite Hf2 at 1. rewrite Hf1. reflexivity. }
  intros layer. specialize (Hd1 layer). specialize (Hd2 layer).
  destruct Hd1 as [m m1 (Hr1 & Hc1 & H1)|]; inversion Hd2 as [? m2 (Hr2 & Hc2 & H2)|];
    subst; constructor.
  split; [congruence|]. split; [congruence|].
  intros a b Ha Hb. rewrite H2, H1 by lia.
  by destruct (P layer a b), (Q layer a b).
Qed.

Lemma clearedBy_ext P Q (g g' : GridMap.t) :
  dimsOk g →
  (∀ layer a b, indexOk (size_ g) (a, b) → P layer a b = Q layer a b) →
  clearedBy P g g' → clearedBy Q g g'.
Proof.
  intros (_ & _ & Hdim) HPQ [Hf Hd]. split; [done|].
  intros layer. specialize (Hd layer).
  destruct (data_ g !! layer) as [m|] eqn:Hm; inversion Hd as [? m' (Hr & Hc & H)|];
    subst; constructor.
  apply Hdim in Hm as [Hrows Hcols].
  repeat split; [done..|].
  intros a b Ha Hb. rewrite H by done. rewrite HPQ; [done|].
  split; simpl; lia.
Qed.

Lemma clearedBy_size P (g g' : GridMap.t) :
  clearedBy P g g' →
  size_ g' = size_ g ∧ startIndex_ g' = startIndex_ g
  ∧ basicLayers_ g' = basicLayers_ g.
Proof. intros [Hf _]. by rewrite Hf. Qed.

Lemma clearedBy_dimsOk P (g g' : GridMap.t) :
  clearedBy P g g' → dimsOk g → dimsOk g'.
Proof.
  intros [Hf Hd] (H1 & H2 & Hdim). unfold dimsOk. rewrite Hf. simpl.
  split; [done|]. split; [done|].
  intros layer m' Hm'. specialize (Hd layer). rewrite Hm' in Hd.
  inversion Hd as [m ? (Hr & Hc & _) Hm|]; subst.
  symmetry in Hm. apply Hdim in Hm. simpl in *. lia.
Qed.

Lemma clearedBy_basicOk P (g g' : GridMap.t) :
  clearedBy P g g' → basicOk g → basicOk g'.
Proof.
  intros [Hf Hd] Hb. unfold basicOk in *. rewrite Hf. simpl.
  eapply Forall_impl; [|exact Hb]. simpl. intros layer [m Hm].
  specialize (Hd layer). rewrite Hm in Hd. inversion Hd. eauto.
Qed.

Lemma clearAll_clearedBy (g : GridMap.t) :
  clearedBy (λ _ _ _, true) g (clearAll g).
Proof.
  split; [done|]. intros layer. unfold clearAll. simpl.
  rewrite lookup_fmap. destruct (data_ g !! layer); constructor.
  by repeat split.
Qed.

Lemma clearedBy_ext_all P Q (g g' : GridMap.t) :
  (∀ layer a b, P layer a b = Q layer a b) →
  clearedBy P g g' → clearedBy Q g g'.
Proof.
  intros HPQ [Hf Hd]. split; [done|].
  intros layer. specialize (Hd layer).
  destruct Hd as [m m' (Hr & Hc & H)|]; constructor.
  repeat split; [done..|].
  intros a b Ha Hb. rewrite H by done. by rewrite HPQ.
Qed.

Lemma clearBlock_clearedBy (i j nr nc : Z) (layer : string) (g : GridMap.t)
    (m : Matrix) :
  data_ g !! layer = Some m → Eigen.validBlock m i j nr nc = true →
  ∃ g', clearBlock i j nr nc layer g = Some g'
    ∧ clearedBy (λ l a b, bool_decide (l = layer) && Eigen.inBlock i j nr nc a b)
        g g'.
Proof.
  intros Hm Hv. unfold clearBlock, Eigen.block_setConstant.
  rewrite Hm. simpl. rewrite Hv. simpl.
  eexists. split; [reflexivity|]. split; [done|].
  intros l. simpl. destruct (decide (l = layer)) as [->|Hne].
  - rewrite lookup_insert_eq, Hm. constructor. repeat split.
    intros a b _ _. simpl. by rewrite bool_decide_eq_true_2.
  - rewrite lookup_insert_ne by done.
    destruct (data_ g !! l); constructor. repeat split.
    intros a b _ _. by rewrite bool_decide_eq_false_2.
Qed.

Lemma forLayers_clearBlock (i j nr nc : Z) (layers : list string)
    (g : GridMap.t) :
  Forall (λ layer, is_Some (data_ g !! layer)) layers →
  map_Forall (λ _ m, Eigen.validBlock m i j nr nc = true) (data_ g) →
  ∃ g', forLayers (clearBlock i j nr nc) layers g = Some g'
    ∧ clearedBy
        (λ l a b, bool_decide (l ∈ layers) && Eigen.inBlock i j nr nc a b)
        g g'.
Proof.
  revert g. induction layers as [|layer rest IH]; intros g Hex Hv.
  - exists g. split; [done|].
    eapply clearedBy_ext_all; [|apply clearedBy_refl].
    intros l a b. rewrite bool_decide_eq_false_2; [done|].
    apply not_elem_of_nil.
  - inversion Hex as [|? ? [m Hm] Hrest]; subst.
    destruct (clearBlock_clearedBy i j nr nc layer g m Hm (Hv _ _ Hm))
      as (g1 & Hg1 & Hc1).
    destruct (IH g1) as (g2 & Hg2 & Hc2).
    + eapply Forall_impl; [|exact Hrest]. simpl. intros l [ml Hml].
      destruct Hc1 as [_ Hd]. specialize (Hd l). rewrite Hml in Hd.
      inversion Hd. eauto.
    + intros l m1 Hm1. simpl.
      destruct Hc1 as [_ Hd]. specialize (Hd l). rewrite Hm1 in Hd.
      inversion Hd as [m0 ? (Hr & Hc & _) Hm0|]; subst.
      symmetry in Hm0. apply Hv in Hm0. simpl in Hm0.
      unfold Eigen.validBlock in *. by rewrite Hr, Hc.
    + exists g2. split; [simpl; by rewrite Hg1|].
      eapply clearedBy_ext_all; [|exact (clearedBy_trans _ _ _ _ _ Hc1 Hc2)].
      intros l a b. simpl.
      destruct (Eigen.inBlock i j nr nc a b); rewrite ?andb_true_r, ?andb_false_r;
        [|done].
      apply eq_true_iff_eq. rewrite orb_true_iff, !bool_decide_eq_true.
      rewrite elem_of_cons. done.
Qed.

Lemma dropLines_clearedBy (i : nat) (index nCells : Z) (g : GridMap.t)
    (colLines rowLines : list Lines.t) :
  (i < 2)%nat → dimsOk g → basicOk g →
  0 <= index → 0 <= nCells → index + nCells <= coord i (size_ g) →
  ∃ g' colLines' rowLines',
    dropLines i index nCells (g, colLines, rowLines)
    = Some (g', colLines', rowLines')
    ∧ clearedBy (λ layer a b,
                   bool_decide (layer ∈ basicLayers_ g)
                   && bool_decide (index <= coord i (a, b) < index + nCells))
        g g'.
Proof.
  intros Hi Hdim Hb H0 Hn Hle.
  destruct Hdim as (Hs1 & Hs2 & Hdim').
  assert (Hdim : dimsOk g) by done.
  destruct i as [|[|i]]; [| |lia]; simpl in *.
  - destruct (forLayers_clearBlock index 0 nCells (getSize g).2
                (basicLayers_ g) g Hb) as (g' & Hg' & Hc).
    { intros l m Hm. apply Hdim' in Hm as [Hr Hc]. simpl.
      unfold Eigen.validBlock, getSize.
      repeat (apply andb_true_intro; split); lia. }
    exists g', (colLines ++ [Lines.mk index nCells]), rowLines.
    unfold clearCols. rewrite Hg'. split; [done|].
    eapply clearedBy_ext; [done| |exact Hc].
    intros l a b [Ha Hb']. simpl in *. f_equal.
    unfold Eigen.inBlock, getSize. apply eq_true_iff_eq.
    rewrite !andb_true_iff, bool_decide_eq_true. lia.
  - destruct (forLayers_clearBlock 0 index (getSize g).1 nCells
                (basicLayers_ g) g Hb) as (g' & Hg' & Hc).
    { intros l m Hm. apply Hdim' in Hm as [Hr Hc]. simpl.
      unfold Eigen.validBlock, getSize.
      repeat (apply andb_true_intro; split); lia. }
    exists g', colLines, (rowLines ++ [Lines.mk index nCells]).
    unfold clearRows. rewrite Hg'. split; [done|].
    eapply clearedBy_ext; [done| |exact Hc].
    intros l a b [Ha Hb']. simpl in *. f_equal.
    unfold Eigen.inBlock, getSize. apply eq_true_iff_eq.
    rewrite !andb_true_iff, bool_decide_eq_true. lia.
Qed.

Lemma inBand_one_region (index nCells n c : Z) :
  0 <= index < n → 0 <= c < n → 0 <= nCells → index + nCells <= n →
  bool_decide (index <= c < index + nCells) = inBand index nCells n c.
Proof.
  intros Hi Hc Hn Hle. unfold inBand. assert (H0 : 0 < n) by lia.
  apply eq_true_iff_eq. rewrite bool_decide_eq_true, Z.ltb_lt.
  mod_split n H0. lia.
Qed.

Lemma inBand_two_regions (index nCells n c : Z) :
  0 <= index < n → 0 <= c < n → nCells < n → n < index + nCells →
  bool_decide (index <= c < index + (n - index))
  || bool_decide (0 <= c < 0 + (nCells - (n - index)))
  = inBand index nCells n c.
Proof.
  intros Hi Hc Hn Hle. unfold inBand. assert (H0 : 0 < n) by lia.
  apply eq_true_iff_eq. rewrite orb_true_iff, !bool_decide_eq_true, Z.ltb_lt.
  mod_split n H0. lia.
Qed.

Lemma moveAxis_clearedBy (indexShift : Index) (i : nat) (g : GridMap.t)
    (colLines rowLines : list Lines.t) :
  (i < 2)%nat → dimsOk g → basicOk g →
  ∃ g' colLines' rowLines',
    moveAxis indexShift i (g, colLines, rowLines)
    = Some (g', colLines', rowLines')
    ∧ clearedBy (axisCleared g indexShift i) g g'.
Proof.
  intros Hi Hdim Hb. unfold moveAxis, axisCleared, getSize.
  set (s := coord i indexShift). set (n := coord i (size_ g)).
  set (a := coord i (startIndex_ g)).
  destruct (decide (s = 0)) as [Hs0|Hs0].
  { rewrite (bool_decide_eq_false_2 (s ≠ 0)) by tauto.
    rewrite (bool_decide_eq_true_2 (s = 0)) by done.
    exists g, colLines, rowLines. split; [done|]. apply clearedBy_refl. }
  rewrite (bool_decide_eq_true_2 (s ≠ 0)) by done.
  rewrite (bool_decide_eq_false_2 (s = 0)) by done.
  destruct (decide (Z.abs s >= n)) as [Hfull|Hpart].
  { rewrite !(bool_decide_eq_true_2 (Z.abs s >= n)) by done.
    exists (clearAll g), colLines, rowLines. split; [done|].
    apply clearAll_clearedBy. }
  rewrite !(bool_decide_eq_false_2 (Z.abs s >= n)) by done.
  assert (Hn : 0 < n) by lia.
  set (index := mapIndexWithinRange _ n).
  assert (Hindex : index = mapIndexWithinRange
            (if bool_decide (s > 0) then a else a + s) n).
  { unfold index. f_equal. destruct (decide (s > 0)).
    - rewrite !(bool_decide_eq_true_2 (s > 0)) by done.
      rewrite (bool_decide_eq_true_2 (1 > 0)) by lia.
      rewrite (bool_decide_eq_false_2 (1 < 0)) by lia. lia.
    - rewrite !(bool_decide_eq_false_2 (s > 0)) by done.
      rewrite (bool_decide_eq_false_2 (-1 > 0)) by lia.
      rewrite (bool_decide_eq_true_2 (-1 < 0)) by lia. lia. }
  rewrite <- Hindex. clearbody index.
  assert (Hidx : 0 <= index < n).
  { rewrite Hindex. apply Z.mod_pos_bound. lia. }
  clear Hindex.
  destruct (decide (index + Z.abs s <= n)) as [Hone|Htwo].
  - rewrite bool_decide_eq_true_2 by done.
    destruct (dropLines_clearedBy i index (Z.abs s) g colLines rowLines)
      as (g' & cl' & rl' & Hg' & Hc); [done|done|done|lia|lia|done|].
    exists g', cl', rl'. split; [done|].
    eapply clearedBy_ext; [done| |exact Hc].
    intros layer r c Hrc. simpl. f_equal.
    apply inBand_one_region; try lia.
    destruct Hrc as [Hr Hc']. destruct i as [|[|i]]; [done|done|lia].
  - rewrite bool_decide_eq_false_2 by done.
    destruct (dropLines_clearedBy i index (n - index) g colLines rowLines)
      as (g1 & cl1 & rl1 & Hg1 & Hc1); [done|done|done|lia|lia|fold n; lia|].
    rewrite Hg1. simpl.
    destruct (clearedBy_size _ _ _ Hc1) as (Hsz1 & Hst1 & Hbl1).
    destruct (dropLines_clearedBy i 0 (Z.abs s - (n - index)) g1 cl1 rl1)
      as (g2 & cl2 & rl2 & Hg2 & Hc2);
      [done|by eapply clearedBy_dimsOk|by eapply clearedBy_basicOk|lia|lia
      |rewrite Hsz1; fold n; lia|].
    exists g2, cl2, rl2. split; [done|].
    eapply clearedBy_ext; [done| |exact (clearedBy_trans _ _ _ _ _ Hc1 Hc2)].
    intros layer r c Hrc. simpl. rewrite Hbl1.
    rewrite <- andb_orb_distrib_r. f_equal.
    apply inBand_two_regions; try lia.
    destruct Hrc as [Hr Hc']. destruct i as [|[|i]]; [done|done|lia].
Qed.

(** [move] returns on every well-formed map; it clears the cells of
    [moveCleared], advances the start index and the position by the shift,
    and changes nothing else. *)
Lemma move_spec (position : Position) (newRegionIndeces : list Index)
    (newRegionSizes : list Size) (g : GridMap.t) :
  dimsOk g → basicOk g →
  let s := indexShiftOf position g in
  ∃ g' indeces sizes,
    move position newRegionIndeces newRegionSizes g
    = Some (bool_decide (s.1 ≠ 0) || bool_decide (s.2 ≠ 0), g',
            newRegionIndeces ++ indeces, newRegionSizes ++ sizes)
    ∧ size_ g' = size_ g
    ∧ startIndex_ g'
      = mapIndexWithinRange2
          ((startIndex_ g).1 + s.1, (startIndex_ g).2 + s.2) (size_ g)
    ∧ position_ g'
      = (((position_ g).1 + QcZ s.1 * resolution_ g)%Qc,
         ((position_ g).2 + QcZ s.2 * resolution_ g)%Qc)
    ∧ length_ g' = length_ g ∧ resolution_ g' = resolution_ g
    ∧ layers_ g' = layers_ g ∧ basicLayers_ g' = basicLayers_ g
    ∧ timestamp_ g' = timestamp_ g ∧ frameId_ g' = frameId_ g
    ∧ dataCleared (moveCleared g s) (data_ g) (data_ g').
Proof.
  intros Hdim Hb s. unfold move. fold (indexShiftOf position g). fold s.
  destruct (moveAxis_clearedBy s 0 g [] []) as (g0 & cl0 & rl0 & Hg0 & Hc0);
    [lia|done|done|].
  rewrite Hg0. cbn [mbind option_bind].
  destruct (moveAxis_clearedBy s 1 g0 cl0 rl0) as (g1 & cl1 & rl1 & Hg1 & Hc1);
    [lia|by eapply clearedBy_dimsOk|by eapply clearedBy_basicOk|].
  rewrite Hg1. cbn [mbind option_bind].
  pose proof (clearedBy_trans _ _ _ _ _ Hc0 Hc1) as [Hf Hd].
  destruct Hc0 as [Hf0 _].
  eexists _, _, _. split; [reflexivity|]. simpl.
  rewrite Hf. simpl. repeat split.
  intros layer. specialize (Hd layer).
  assert (Hax : axisCleared g0 s 1 = axisCleared g s 1).
  { unfold axisCleared. by rewrite Hf0. }
  unfold moveCleared. by rewrite <- Hax.
Qed.

(** Reading a cell after some cells were cleared. *)
Lemma at_dataCleared P (g g' : GridMap.t) (layer : string) (index : Index) :
  dimsOk g → dataCleared P (data_ g) (data_ g') → indexOk (size_ g) index →
  at_ layer index g'
  = (λ v, if P layer index.1 index.2 then NAN else v) <$> at_ layer index g.
Proof.
  intros (_ & _ & Hdim) Hd [Hi1 Hi2]. unfold at_.
  specialize (Hd layer).
  destruct (data_ g !! layer) as [m|] eqn:Hm;
    inversion Hd as [? m' (Hr & Hc & H)|]; subst; simpl; [|done].
  apply Hdim in Hm as [Hrows Hcols]. simpl in *.
  unfold Eigen.get, Eigen.inRange. rewrite Hr, Hc.
  destruct (_ && _) eqn:Hin; simpl; [|done].
  rewrite H by lia. done.
Qed.

(** The band that [moveAxis] clears along one axis is the set of lines
    whose new logical offset, moved back by the shift, falls outside the
    old window. *)
Lemma axis_band_in_range (a s n c : Z) :
  0 <= a < n → Z.abs s < n → 0 <= c < n →
  (if bool_decide (s = 0) then false
   else inBand (mapIndexWithinRange
                  (if bool_decide (s > 0) then a else a + s) n)
          (Z.abs s) n c)
  = negb (bool_decide
            (0 <= getIndexFromBufferIndex c n (mapIndexWithinRange (a + s) n) + s
             < n)).
Proof.
  intros Ha Hs Hc. assert (Hn : 0 < n) by lia.
  unfold inBand, getIndexFromBufferIndex, mapIndexWithinRange.
  apply eq_true_iff_eq. rewrite negb_true_iff, bool_decide_eq_false.
  destruct (decide (s = 0)) as [->|Hs0].
  { rewrite bool_decide_eq_true_2 by done.
    split; [done|]. intros H. exfalso. apply H.
    mod_split n Hn. lia. }
  rewrite (bool_decide_eq_false_2 (s = 0)) by done.
  rewrite Z.ltb_lt.
  destruct (decide (s > 0)).
  - rewrite bool_decide_eq_true_2 by done. mod_split n Hn. lia.
  - rewrite bool_decide_eq_false_2 by done. mod_split n Hn. lia.
Qed.

Lemma axis_band_iff (a s n c : Z) :
  Z.abs s < n → 0 <= c < n →
  (if bool_decide (s = 0) then false
   else inBand (mapIndexWithinRange
                  (if bool_decide (s > 0) then a else a + s) n)
          (Z.abs s) n c)
  = negb (bool_decide
            (0 <= getIndexFromBufferIndex c n (mapIndexWithinRange (a + s) n) + s
             < n)).
Proof.
  intros Hs Hc. assert (Hn : 0 < n) by lia.
  pose proof (axis_band_in_range (a mod n) s n c
                ltac:(apply Z.mod_pos_bound; lia) Hs Hc) as H.
  unfold mapIndexWithinRange in *.
  destruct (bool_decide (s > 0));
    rewrite ?(Z.add_mod_idemp_l a s n), ?Z.mod_mod in H by lia; exact H.
Qed.

Lemma positionOfOffset_before_move (l s : Z) (len c r : Qc) :
  positionOfOffset l len (c + QcZ s * r)%Qc r
  = positionOfOffset (l + s) len c r.
Proof.
  unfold positionOfOffset, QcZ. rewrite Z2Qc_inj_add. ring.
Qed.

Lemma axisCleared_partial (g : GridMap.t) (s : Index) (i : nat)
    (layer : string) (a b : Z) :
  (i < 2)%nat → Z.abs (coord i s) < coord i (size_ g) →
  indexOk (size_ g) (a, b) →
  axisCleared g s i layer a b
  = bool_decide (layer ∈ basicLayers_ g)
    && negb (bool_decide
         (0 <= getIndexFromBufferIndex (coord i (a, b)) (coord i (size_ g))
                 (mapIndexWithinRange (coord i (startIndex_ g) + coord i s)
                    (coord i (size_ g)))
               + coord i s
          < coord i (size_ g))).
Proof.
  intros Hi Hs [Ha Hb]. simpl in Ha, Hb.
  rewrite <- axis_band_iff;
    [| done | destruct i as [|[|i]]; simpl; lia].
  unfold axisCleared.
  destruct (bool_decide (coord i s = 0)); [by rewrite andb_false_r|].
  rewrite bool_decide_eq_false_2 by lia. done.
Qed.

(** C1: on a map with a positive resolution, whose buffers have the
    dimensions of its size and whose basic layers exist, a [move] whose
    index shift is smaller than the size on both axes returns.  Afterwards, every cell of the buffer
    whose logical position lay outside the window before the move holds NaN
    in every basic layer, and every cell whose logical position lay inside
    that window holds, in every layer, the value it held before. *)
Theorem move_invalidates_new_cells_and_keeps_old (position : Position)
    (newRegionIndeces : list Index) (newRegionSizes : list Size)
    (g : GridMap.t) :
  (0 < resolution_ g)%Qc → dimsOk g → basicOk g →
  Z.abs (indexShiftOf position g).1 < (size_ g).1 →
  Z.abs (indexShiftOf position g).2 < (size_ g).2 →
  ∃ moved g' indeces sizes,
    move position newRegionIndeces newRegionSizes g
    = Some (moved, g', indeces, sizes)
    ∧ ∀ index, indexOk (size_ g) index →
        let before :=
          logicalBeforeMove (indexShiftOf position g) (logicalIndex g' index) in
        (¬ indexOk (size_ g) before →
           ∀ layer, layer ∈ basicLayers_ g → at_ layer index g' = Some NAN)
        ∧ (indexOk (size_ g) before →
           ∀ layer, at_ layer index g' = at_ layer index g).
Proof.
  intros _ Hdim Hb Hs1 Hs2.
  destruct (move_spec position newRegionIndeces newRegionSizes g Hdim Hb)
    as (g' & ixs & szs & Hmove & Hsz & Hstart & _ & _ & _ & _ & _ & _ & _ & Hd).
  set (s := indexShiftOf position g) in *.
  eexists _, g', _, _. split; [exact Hmove|].
  intros [a b] Hidx before.
  assert (HP : ∀ layer, moveCleared g s layer a b
     = bool_decide (layer ∈ basicLayers_ g)
       && negb (bool_decide (indexOk (size_ g) before))).
  { intros layer. unfold moveCleared.
    rewrite (axisCleared_partial g s 0), (axisCleared_partial g s 1)
      by (done || lia).
    rewrite <- andb_orb_distrib_r. f_equal.
    rewrite <- negb_andb. f_equal.
    unfold before, logicalBeforeMove, logicalIndex, indexOk.
    rewrite Hsz, Hstart. simpl.
    apply eq_true_iff_eq.
    rewrite andb_true_iff, !bool_decide_eq_true. done. }
  split.
  - intros Hout layer Hlayer.
    rewrite (at_dataCleared _ g g' layer (a, b) Hdim Hd Hidx). simpl.
    rewrite HP, bool_decide_eq_true_2, bool_decide_eq_false_2 by done. simpl.
    unfold basicOk in Hb. rewrite List.Forall_forall in Hb.
    destruct (Hb layer (proj1 (list_elem_of_In _ _) Hlayer)) as [m Hm].
    destruct Hdim as (_ & _ & Hdim). pose proof (Hdim _ _ Hm) as [Hr Hc].
    destruct Hidx as [Hi1 Hi2]. simpl in *.
    unfold at_, Eigen.get, Eigen.inRange. rewrite Hm. simpl.
    rewrite Hr, Hc.
    replace (_ && _) with true; [done|].
    symmetry. repeat (apply andb_true_intro; split); lia.
  - intros Hin layer.
    rewrite (at_dataCleared _ g g' layer (a, b) Hdim Hd Hidx). simpl.
    rewrite HP, (bool_decide_eq_true_2 (indexOk _ _)) by done.
    rewrite andb_false_r. by destruct (at_ layer (a, b) g).
Qed.

Lemma axisCleared_full (g : GridMap.t) (s : Index) (i : nat)
    (layer : string) (a b : Z) :
  coord i s ≠ 0 → Z.abs (coord i s) >= coord i (size_ g) →
  axisCleared g s i layer a b = true.
Proof.
  intros Hs Hfull. unfold axisCleared.
  rewrite bool_decide_eq_false_2, bool_decide_eq_true_2 by done. done.
Qed.

(** C3, as the code has it: on a well-formed map with a positive
    resolution, a [move] whose index shift reaches the size on some axis
    returns, and afterwards every cell
    of every layer, basic or not, holds NaN; the layers are the same. *)
Theorem move_beyond_extent_clears_every_layer (position : Position)
    (newRegionIndeces : list Index) (newRegionSizes : list Size)
    (g : GridMap.t) :
  (0 < resolution_ g)%Qc → dimsOk g → basicOk g →
  Z.abs (indexShiftOf position g).1 >= (size_ g).1
  ∨ Z.abs (indexShiftOf position g).2 >= (size_ g).2 →
  ∃ moved g' indeces sizes,
    move position newRegionIndeces newRegionSizes g
    = Some (moved, g', indeces, sizes)
    ∧ layers_ g' = layers_ g
    ∧ ∀ layer index,
        is_Some (data_ g !! layer) → indexOk (size_ g) index →
        at_ layer index g' = Some NAN.
Proof.
  intros _ Hdim Hb Hfull.
  destruct (move_spec position newRegionIndeces newRegionSizes g Hdim Hb)
    as (g' & ixs & szs & Hmove & _ & _ & _ & _ & _ & Hl & _ & _ & _ & Hd).
  set (s := indexShiftOf position g) in *.
  eexists _, g', _, _. split; [exact Hmove|]. split; [exact Hl|].
  intros layer [a b] [m Hm] Hidx.
  rewrite (at_dataCleared _ g g' layer (a, b) Hdim Hd Hidx). simpl.
  assert (HP : moveCleared g s layer a b = true).
  { unfold moveCleared. destruct Hidx as [Hi1 Hi2]. simpl in *.
    apply orb_true_iff. destruct Hfull as [Hf|Hf]; [left|right];
      (apply axisCleared_full; simpl; lia). }
  rewrite HP.
  destruct Hdim as (_ & _ & Hdim). pose proof (Hdim _ _ Hm) as [Hr Hc].
  destruct Hidx as [Hi1 Hi2]. simpl in *.
  unfold at_, Eigen.get, Eigen.inRange. rewrite Hm. simpl.
  rewrite Hr, Hc.
  replace (_ && _) with true; [done|].
  symmetry. repeat (apply andb_true_intro; split); lia.
Qed.

(** ** getSubmap *)

Lemma inBlock_true (i j nr nc a b : Z) :
  Eigen.inBlock i j nr nc a b = true ↔ (i <= a < i + nr ∧ j <= b < j + nc).
Proof. unfold Eigen.inBlock. rewrite !andb_true_iff. lia. Qed.

Lemma inBlock_false (i j nr nc a b : Z) :
  Eigen.inBlock i j nr nc a b = false ↔ ¬ (i <= a < i + nr ∧ j <= b < j + nc).
Proof. rewrite <- inBlock_true. by destruct (Eigen.inBlock i j nr nc a b). Qed.

Lemma validBlock_true (m : Matrix) (i j nr nc : Z) :
  Eigen.validBlock m i j nr nc = true
  ↔ (0 <= i ∧ 0 <= nr ∧ i + nr <= Eigen.rows m
     ∧ 0 <= j ∧ 0 <= nc ∧ j + nc <= Eigen.cols m).
Proof. unfold Eigen.validBlock. rewrite !andb_true_iff. lia. Qed.

Lemma block_assign_Some (di dj : Z) (src : Matrix) (si sj nr nc : Z)
    (dst dst' : Matrix) :
  Eigen.block_assign di dj src si sj nr nc dst = Some dst' →
  (0 <= di ∧ 0 <= nr ∧ di + nr <= Eigen.rows dst
   ∧ 0 <= dj ∧ 0 <= nc ∧ dj + nc <= Eigen.cols dst)
  ∧ Eigen.rows dst' = Eigen.rows dst ∧ Eigen.cols dst' = Eigen.cols dst
  ∧ ∀ a b, Eigen.coeff dst' a b
           = if Eigen.inBlock di dj nr nc a b
             then Eigen.coeff src (si + (a - di)) (sj + (b - dj))
             else Eigen.coeff dst a b.
Proof.
  unfold Eigen.block_assign. intros H.
  destruct (Eigen.validBlock dst di dj nr nc) eqn:Hv; [|done].
  destruct (Eigen.validBlock src si sj nr nc); [|done].
  apply validBlock_true in Hv. simplify_eq/=. done.
Qed.

(** Copying the regions fills the destination with the cells of the source
    that follow the top-left index, around the edges of the buffer. *)
Lemma copyRegions_spec (src dst dst' : Matrix) (t m n : Index) :
  indexOk n t → 0 < m.1 <= n.1 → 0 < m.2 <= n.2 →
  (Eigen.rows dst = m.1 ∧ Eigen.cols dst = m.2) ∨ dst = Eigen.empty →
  copyRegions src (regionsOf t m n) dst = Some dst' →
  Eigen.rows dst' = m.1 ∧ Eigen.cols dst' = m.2
  ∧ ∀ i j, indexOk m (i, j) →
      Eigen.coeff dst' i j
      = Eigen.coeff src ((t.1 + i) mod n.1) ((t.2 + j) mod n.2).
Proof.
  destruct t as [t0 t1], m as [m0 m1], n as [n0 n1].
  intros [Ht0 Ht1] Hm0 Hm1 Hdst. simpl in *.
  assert (Hn0 : 0 < n0) by lia. assert (Hn1 : 0 < n1) by lia.
  unfold regionsOf, Decomposer.axisIntervals. simpl.
  destruct (bool_decide (t0 + m0 <= n0)) eqn:Hw0;
    [apply bool_decide_eq_true in Hw0|apply bool_decide_eq_false in Hw0];
  (destruct (bool_decide (t1 + m1 <= n1)) eqn:Hw1;
    [apply bool_decide_eq_true in Hw1|apply bool_decide_eq_false in Hw1]);
  simpl; unfold copyRegion, Eigen.topLeftCorner, Eigen.topRightCorner,
    Eigen.bottomLeftCorner, Eigen.bottomRightCorner; simpl; intros Hcopy;
  repeat match type of Hcopy with
  | context [Eigen.block_assign ?di ?dj ?s ?si ?sj ?nr ?nc ?d] =>
      let d1 := fresh "d" in
      let Hv := fresh "Hv" in
      let Hr := fresh "Hr" in
      let Hc := fresh "Hc" in
      let Hco := fresh "Hco" in
      destruct (Eigen.block_assign di dj s si sj nr nc d) as [d1|] eqn:Hco;
      [|discriminate Hcopy];
      apply block_assign_Some in Hco as (Hv & Hr & Hc & Hco); simpl in Hcopy
  end; simplify_eq/=;
  (destruct Hdst as [[Hrd Hcd]| ->]; [|simpl in *; lia]);
  (split; [lia|]); (split; [lia|]);
  intros i j [Hi Hj]; simpl in Hi, Hj;
  repeat match goal with
  | H : ∀ a b, Eigen.coeff ?d a b = _ |- context [Eigen.coeff ?d ?x ?y] =>
      rewrite (H x y)
  end;
  repeat match goal with
  | |- context [Eigen.inBlock ?a ?b ?c ?d ?e ?f] =>
      let E := fresh "E" in
      destruct (Eigen.inBlock a b c d e f) eqn:E;
      [apply inBlock_true in E|apply inBlock_false in E]
  end;
  try (exfalso; lia);
  (f_equal; [mod_split n0 Hn0|mod_split n1 Hn1]; lia).
Qed.

Lemma copyData_frame (l : list (string * Matrix))
    (regions : list BufferRegion.t) (sub sub' : GridMap.t) :
  copyData l regions sub = Some sub' → sub' = with_data (data_ sub') sub.
Proof.
  revert sub. induction l as [|[name src] rest IH]; intros sub H; simpl in H.
  - simplify_eq. by rewrite with_data_id.
  - destruct (copyRegions src regions _) as [dst|]; [|done]. simpl in H.
    apply IH in H. rewrite H at 1. done.
Qed.

Lemma copyData_other (l : list (string * Matrix))
    (regions : list BufferRegion.t) (sub sub' : GridMap.t) (name : string) :
  name ∉ l.*1 → copyData l regions sub = Some sub' →
  data_ sub' !! name = data_ sub !! name.
Proof.
  revert sub. induction l as [|[name0 src] rest IH]; intros sub Hn H; simpl in *.
  - by simplify_eq.
  - destruct (copyRegions src regions _) as [dst|]; [|done]. simpl in H.
    apply not_elem_of_cons in Hn as [Hne Hn].
    rewrite (IH _ Hn H). simpl. by rewrite lookup_insert_ne.
Qed.

Lemma copyData_lookup (l : list (string * Matrix))
    (regions : list BufferRegion.t) (sub sub' : GridMap.t)
    (name : string) (src : Matrix) :
  NoDup l.*1 → copyData l regions sub = Some sub' → (name, src) ∈ l →
  ∃ dst, copyRegions src regions (default Eigen.empty (data_ sub !! name))
         = Some dst
         ∧ data_ sub' !! name = Some dst.
Proof.
  revert sub. induction l as [|[name0 src0] rest IH]; intros sub Hnd H Hin;
    simpl in *.
  - by apply elem_of_nil in Hin.
  - pose proof (NoDup_cons_1_1 _ _ Hnd) as Hfresh.
    apply NoDup_cons_1_2 in Hnd.
    destruct (copyRegions src0 regions _) as [dst|] eqn:Hdst; [|done].
    simpl in H. apply elem_of_cons in Hin as [Heq|Hin].
    + simplify_eq. exists dst. split; [done|].
      rewrite (copyData_other _ _ _ _ _ Hfresh H). simpl.
      by rewrite lookup_insert_eq.
    + destruct (IH _ Hnd H Hin) as (dst' & Hc & Hl). simpl in Hc.
      rewrite lookup_insert_ne in Hc.
      * by exists dst'.
      * intros ->. apply Hfresh. apply list_elem_of_fmap.
        by exists (name, src).
Qed.

(** *** The floor and the rounding of rationals *)

Lemma floorQc_bounds (x : Qc) :
  (QcZ (floorQc x) ≤ x)%Qc ∧ (x < QcZ (floorQc x) + 1)%Qc.
Proof.
  unfold floorQc. split; qc_to_q.
  - apply Qfloor_le.
  - pose proof (Qlt_floor (this x)) as H.
    rewrite inject_Z_plus in H. exact H.
Qed.

Lemma floorQc_unique (x : Qc) (k : Z) :
  (QcZ k ≤ x)%Qc → (x < QcZ k + 1)%Qc → floorQc x = k.
Proof.
  intros H1 H2. destruct (floorQc_bounds x) as [H3 H4].
  assert (Hlt : ∀ a b : Z, (QcZ a < QcZ b + 1)%Qc → a <= b).
  { intros a b H. unfold QcZ in H. rewrite <- Z2Qc_inj_1, <- Z2Qc_inj_add in H.
    apply Z2Qc_inj_lt in H. lia. }
  assert (k <= floorQc x).
  { apply Hlt. eapply Qcle_lt_trans; [exact H1|exact H4]. }
  assert (floorQc x <= k).
  { apply Hlt. eapply Qcle_lt_trans; [exact H3|exact H2]. }
  lia.
Qed.

Lemma round_QcZ (m : Z) : round (QcZ m) = m.
Proof.
  unfold round. destruct (decide (0 ≤ QcZ m)%Qc) as [H|H].
  - apply floorQc_QcZ_half.
  - unfold Qceiling.
    assert (Qfloor (- this (QcZ m - half)%Qc) = - m) as ->; [|lia].
    transitivity (floorQc (QcZ (- m) + half)%Qc);
      [|apply floorQc_QcZ_half].
    unfold floorQc. apply Qfloor_comp. qc_to_q.
    rewrite inject_Z_opp. ring.
Qed.

(** *** Positions and logical offsets *)

Lemma offsetOfPosition_bounds (p len c r : Qc) :
  (0 < r)%Qc →
  (c - len * half + r * QcZ (offsetOfPosition p len c r) ≤ p)%Qc
  ∧ (p < c - len * half + r * (QcZ (offsetOfPosition p len c r) + 1))%Qc.
Proof.
  intros Hr. unfold offsetOfPosition.
  set (x := ((p - (c - len * half)) / r)%Qc).
  assert (Hx : p = (c - len * half + r * x)%Qc).
  { unfold x. field. by apply Qc_pos_neq0. }
  destruct (floorQc_bounds x) as [H1 H2].
  clearbody x. subst p. set (k := floorQc x) in *. clearbody k.
  split; qc_to_q; change (this (Q2Qc 1)) with 1%Q in *; nra.
Qed.

Lemma offsetOfPosition_unique (p len c r : Qc) (k : Z) :
  (0 < r)%Qc →
  (c - len * half + r * QcZ k ≤ p)%Qc →
  (p < c - len * half + r * (QcZ k + 1))%Qc →
  offsetOfPosition p len c r = k.
Proof.
  intros Hr H1 H2. unfold offsetOfPosition.
  set (x := ((p - (c - len * half)) / r)%Qc).
  assert (Hx : p = (c - len * half + r * x)%Qc).
  { unfold x. field. by apply Qc_pos_neq0. }
  clearbody x. subst p.
  apply floorQc_unique; qc_to_q; change (this (Q2Qc 1)) with 1%Q in *; nra.
Qed.

Lemma withinAxis_true (p len c : Qc) :
  withinAxis p len c = true ↔ (c - len * half ≤ p)%Qc ∧ (p < c + len * half)%Qc.
Proof.
  unfold withinAxis. by rewrite andb_true_iff, !bool_decide_eq_true.
Qed.

Lemma submap_axis (p c r : Qc) (n lt m : Z) :
  (0 < r)%Qc → 0 <= lt → lt + m <= n →
  withinAxis p (QcZ m * r)%Qc
    (SubmapGeometry.realizedPosition lt m (QcZ n * r)%Qc c r) = true →
  let k := offsetOfPosition p (QcZ m * r)%Qc
             (SubmapGeometry.realizedPosition lt m (QcZ n * r)%Qc c r) r in
  0 <= k < m
  ∧ withinAxis p (QcZ n * r)%Qc c = true
  ∧ offsetOfPosition p (QcZ n * r)%Qc c r = lt + k.
Proof.
  intros Hr Hlt Hfit Hin k.
  apply withinAxis_true in Hin as [Hlo Hhi].
  destruct (offsetOfPosition_bounds p (QcZ m * r)%Qc
              (SubmapGeometry.realizedPosition lt m (QcZ n * r)%Qc c r) r Hr)
    as [Hk1 Hk2].
  fold k in Hk1, Hk2. clearbody k.
  unfold SubmapGeometry.realizedPosition in *.
  assert (Hlt' : (0 <= inject_Z lt)%Q) by (by rewrite (Zle_Qle 0 lt) in Hlt).
  assert (Hfit' : (inject_Z lt + inject_Z m <= inject_Z n)%Q).
  { rewrite <- inject_Z_plus. by rewrite <- Zle_Qle. }
  assert (Hk0 : 0 <= k).
  { destruct (decide (0 <= k)) as [|Hneg]; [done|exfalso].
    assert (Hk : (inject_Z k + 1 <= inject_Z 0)%Q) by (apply inject_Z_lt_le; lia).
    clear Hneg Hlt Hfit.
    qc_to_q; change (this (Q2Qc 1)) with 1%Q in *. nra. }
  assert (Hkm : k < m).
  { destruct (decide (k < m)) as [|Hge]; [done|exfalso].
    assert (Hk : (inject_Z m <= inject_Z k)%Q) by (rewrite <- Zle_Qle; lia).
    clear Hge Hlt Hfit Hk0.
    qc_to_q; change (this (Q2Qc 1)) with 1%Q in *. nra. }
  split; [lia|]. split.
  - apply withinAxis_true.
    assert (Hk : (inject_Z k + 1 <= inject_Z m)%Q) by (apply inject_Z_lt_le; lia).
    assert (Hk' : (0 <= inject_Z k)%Q) by (by rewrite (Zle_Qle 0 k) in Hk0).
    clear Hlt Hfit Hk0 Hkm.
    split; qc_to_q; change (this (Q2Qc 1)) with 1%Q in *; nra.
  - apply offsetOfPosition_unique; [done| |];
      unfold QcZ in *; rewrite Z2Qc_inj_add; fold (QcZ lt) (QcZ k) (QcZ m) (QcZ n) in *;
      clear Hlt Hfit Hk0 Hkm Hlt' Hfit';
      qc_to_q; change (this (Q2Qc 1)) with 1%Q in *; nra.
Qed.

Lemma offsetOfPosition_range (p c r : Qc) (n : Z) :
  (0 < r)%Qc → withinAxis p (QcZ n * r)%Qc c = true →
  0 <= offsetOfPosition p (QcZ n * r)%Qc c r < n.
Proof.
  intros Hr Hin. apply withinAxis_true in Hin as [Hlo Hhi].
  destruct (offsetOfPosition_bounds p (QcZ n * r)%Qc c r Hr) as [Hk1 Hk2].
  set (k := offsetOfPosition _ _ _ _) in *. clearbody k.
  split.
  - destruct (decide (0 <= k)) as [|Hneg]; [done|exfalso].
    assert (Hk : (inject_Z k + 1 <= inject_Z 0)%Q) by (apply inject_Z_lt_le; lia).
    clear Hneg. qc_to_q; change (this (Q2Qc 1)) with 1%Q in *. nra.
  - destruct (decide (k < n)) as [|Hge]; [done|exfalso].
    assert (Hk : (inject_Z n <= inject_Z k)%Q) by (rewrite <- Zle_Qle; lia).
    clear Hge. qc_to_q; change (this (Q2Qc 1)) with 1%Q in *. nra.
Qed.

Lemma getIndexFromPosition_Some (position : Position) (mapLength : Length)
    (mapPosition : Position) (resolution : Qc) (bufferSize : Size)
    (bufferStartIndex index : Index) :
  getIndexFromPosition position mapLength mapPosition resolution bufferSize
    bufferStartIndex = Some index →
  withinAxis position.1 mapLength.1 mapPosition.1 = true
  ∧ withinAxis position.2 mapLength.2 mapPosition.2 = true
  ∧ index
    = (getBufferIndexFromIndex
         (offsetOfPosition position.1 mapLength.1 mapPosition.1 resolution)
         bufferSize.1 bufferStartIndex.1,
       getBufferIndexFromIndex
         (offsetOfPosition position.2 mapLength.2 mapPosition.2 resolution)
         bufferSize.2 bufferStartIndex.2).
Proof.
  unfold getIndexFromPosition, checkIfPositionWithinMap. intros H.
  destruct (withinAxis position.1 _ _); [|done].
  destruct (withinAxis position.2 _ _); [|done].
  by simplify_eq/=.
Qed.

(** What a successful [getSubmap] went through. *)
Lemma getSubmap_success (position : Position) (length : Length)
    (g g0 sub : GridMap.t) :
  getSubmap position length g = Some (g0, sub, true) →
  ∃ info sub0 regions,
    SubmapGeometry.make position length (length_ g) (position_ g)
      (resolution_ g) (size_ g) (startIndex_ g) = Some info
    ∧ setGeometry' info
        (setFrameId (frameId_ g)
           (setTimestamp (timestamp_ g)
              (setBasicLayers (basicLayers_ g) (GridMap (layers_ g)))))
      = Some sub0
    ∧ Decomposer.getBufferRegionsForSubmap
        (SubmapGeometry.getTopLeftIndex info) (size_ sub0) (size_ g)
        (startIndex_ g) = Some regions
    ∧ copyData (map_to_list (data_ g)) regions (setStartIndex (0, 0) sub0)
      = Some sub
    ∧ g0 = g.
Proof.
  unfold getSubmap. intros H.
  destruct (SubmapGeometry.make _ _ _ _ _ _ _) as [info|] eqn:Hinfo;
    [|by simplify_eq].
  destruct (setGeometry' info _) as [sub0|] eqn:Hgeo; [|done].
  cbn [mbind option_bind] in H.
  change (getSize (setStartIndex (0, 0) sub0)) with (size_ sub0) in H.
  destruct (Decomposer.getBufferRegionsForSubmap _ _ _ _) as [regions|]
    eqn:Hregions; [|by simplify_eq].
  destruct (copyData _ _ _) as [sub'|] eqn:Hcopy; [|done].
  cbn [mbind option_bind] in H. simplify_eq.
  by exists info, sub0, regions.
Qed.

Lemma make_Some (position : Position) (length mapLength : Length)
    (mapPosition : Position) (r : Qc) (n : Size) (a : Index)
    (info : SubmapGeometry.t) :
  SubmapGeometry.make position length mapLength mapPosition r n a = Some info →
  let tl : Position :=
    ((position.1 - length.1 * half)%Qc, (position.2 - length.2 * half)%Qc) in
  let lt : Index :=
    (offsetOfPosition tl.1 mapLength.1 mapPosition.1 r,
     offsetOfPosition tl.2 mapLength.2 mapPosition.2 r) in
  let m : Size := (round (length.1 / r)%Qc, round (length.2 / r)%Qc) in
  withinAxis tl.1 mapLength.1 mapPosition.1 = true
  ∧ withinAxis tl.2 mapLength.2 mapPosition.2 = true
  ∧ info
    = SubmapGeometry.mk
        (getBufferIndexFromIndex lt.1 n.1 a.1,
         getBufferIndexFromIndex lt.2 n.2 a.2)
        m
        (SubmapGeometry.realizedPosition lt.1 m.1 mapLength.1 mapPosition.1 r,
         SubmapGeometry.realizedPosition lt.2 m.2 mapLength.2 mapPosition.2 r)
        ((QcZ m.1 * r)%Qc, (QcZ m.2 * r)%Qc) r.
Proof.
  unfold SubmapGeometry.make. intros H.
  destruct (_ && _); [|done].
  destruct (getIndexFromPosition _ _ _ _ _ _) as [idx|] eqn:Hidx; [|done].
  apply getIndexFromPosition_Some in Hidx as (H1 & H2 & ->).
  cbn [mbind option_bind] in H. simplify_eq. done.
Qed.

Lemma setGeometry_Some (length : Length) (r : Qc) (position : Position)
    (g g' : GridMap.t) :
  setGeometry length r position g = Some g' →
  (0 < r)%Qc
  ∧ g' = GridMap.mk position
           ((QcZ (round (length.1 / r)%Qc) * r)%Qc,
            (QcZ (round (length.2 / r)%Qc) * r)%Qc)
           r (round (length.1 / r)%Qc, round (length.2 / r)%Qc) (0, 0)
           (timestamp_ g) (frameId_ g) (layers_ g) (basicLayers_ g)
           (Eigen.setConstant NAN
              <$> (Eigen.resize (round (length.1 / r)%Qc)
                     (round (length.2 / r)%Qc) <$> data_ g)).
Proof.
  unfold setGeometry. intros H.
  destruct (bool_decide (0 < length.1)%Qc); [|done].
  destruct (bool_decide (0 < length.2)%Qc); [|done].
  destruct (bool_decide (0 < r)%Qc) eqn:Hr; [|done].
  apply bool_decide_eq_true in Hr. cbn [andb] in H. by simplify_eq.
Qed.

Lemma round_scaled (m : Z) (r : Qc) :
  (0 < r)%Qc → round (QcZ m * r / r)%Qc = m.
Proof.
  intros Hr. replace (QcZ m * r / r)%Qc with (QcZ m).
  - apply round_QcZ.
  - field. by apply Qc_pos_neq0.
Qed.

Lemma wrapped_index_shift (lt a k n : Z) :
  0 <= a < n → 0 <= lt → 0 <= k → lt + k < n →
  (getBufferIndexFromIndex lt n a + k) mod n
  = getBufferIndexFromIndex (lt + k) n a.
Proof.
  intros Ha Hlt Hk Hfit. assert (Hn : 0 < n) by lia.
  unfold getBufferIndexFromIndex, mapIndexWithinRange.
  mod_split n Hn. lia.
Qed.

Lemma getIndexFromBufferIndex_wrapped (lt a n : Z) :
  0 <= a < n → 0 <= lt < n →
  getIndexFromBufferIndex (getBufferIndexFromIndex lt n a) n a = lt.
Proof.
  intros Ha Hlt. assert (Hn : 0 < n) by lia.
  unfold getBufferIndexFromIndex, getIndexFromBufferIndex, mapIndexWithinRange.
  mod_split n Hn. lia.
Qed.

Lemma Eigen_get_inRange (m : Matrix) (i j : Z) :
  0 <= i < Eigen.rows m → 0 <= j < Eigen.cols m →
  Eigen.get m i j = Some (Eigen.coeff m i j).
Proof.
  intros Hi Hj. unfold Eigen.get, Eigen.inRange.
  replace (_ && _) with true; [done|].
  symmetry. repeat (apply andb_true_intro; split); lia.
Qed.

(** C5: on a well-formed source with a positive resolution, whose length
    is its size times the resolution and whose start index is in range,
    when [getSubmap] reports success, every layer of the source read at
    any position inside the submap has the same value in the submap and
    in the source. *)
Theorem getSubmap_values_agree (position : Position) (length : Length)
    (g g0 sub : GridMap.t) :
  (0 < resolution_ g)%Qc →
  length_ g = ((QcZ (size_ g).1 * resolution_ g)%Qc,
               (QcZ (size_ g).2 * resolution_ g)%Qc) →
  dimsOk g → startOk g →
  getSubmap position length g = Some (g0, sub, true) →
  ∀ layer p, is_Some (data_ g !! layer) → isInside p sub = true →
    ∃ v, atPosition layer p sub = Some v ∧ atPosition layer p g = Some v.
Proof.
  intros Hr Hlen Hdim Hst Hsub layer p [src Hsrc] Hin.
  apply getSubmap_success in Hsub as (info & sub0 & regions & Hmake & Hgeo
                                      & Hreg & Hcopy & ->).
  rewrite Hlen in Hmake. apply make_Some in Hmake as (Htl1 & Htl2 & ->).
  cbn [fst snd] in Htl1, Htl2.
  destruct Hst as [Ha0 Ha1]. destruct Hdim as (_ & _ & Hdim).
  pose proof (Hdim _ _ Hsrc) as [Hrows Hcols]. cbn beta in Hrows, Hcols.
  destruct g as [[c0 c1] len r [n0 n1] [a0 a1] ts fid ls bls d].
  cbn [position_ length_ resolution_ size_ startIndex_ timestamp_ frameId_
       layers_ basicLayers_ data_ fst snd] in *.
  subst len.
  set (lt0 := offsetOfPosition _ _ c0 r) in *.
  set (lt1 := offsetOfPosition _ _ c1 r) in *.
  set (m0 := round (length.1 / r)%Qc) in *.
  set (m1 := round (length.2 / r)%Qc) in *.
  pose proof (offsetOfPosition_range _ _ _ _ Hr Htl1) as Hlt0.
  pose proof (offsetOfPosition_range _ _ _ _ Hr Htl2) as Hlt1.
  fold lt0 in Hlt0. fold lt1 in Hlt1. clearbody lt0 lt1 m0 m1.
  unfold setGeometry' in Hgeo.
  cbn [SubmapGeometry.getLength SubmapGeometry.getResolution
       SubmapGeometry.getPosition SubmapGeometry.length_
       SubmapGeometry.resolution_ SubmapGeometry.position_] in Hgeo.
  apply setGeometry_Some in Hgeo as (_ & ->).
  cbn [fst snd] in *. rewrite !round_scaled in * by done.
  cbn [size_ SubmapGeometry.getTopLeftIndex SubmapGeometry.topLeftIndex_]
    in Hreg.
  unfold Decomposer.getBufferRegionsForSubmap in Hreg.
  cbn [fst snd] in Hreg.
  rewrite !getIndexFromBufferIndex_wrapped in Hreg by done.
  destruct (bool_decide (lt0 + m0 <= n0)) eqn:Hfit0; [|done].
  destruct (bool_decide (lt1 + m1 <= n1)) eqn:Hfit1; [|done].
  apply bool_decide_eq_true in Hfit0, Hfit1.
  cbn [andb] in Hreg. injection Hreg as <-.
  pose proof (copyData_frame _ _ _ _ Hcopy) as Hframe.
  unfold isInside, checkIfPositionWithinMap in Hin.
  rewrite Hframe in Hin.
  cbn [with_data setStartIndex position_ length_ fst snd] in Hin.
  apply andb_true_iff in Hin as [Hin0 Hin1].
  destruct (submap_axis _ _ _ _ _ _ Hr (proj1 Hlt0) Hfit0 Hin0)
    as (Hk0 & Hsrc0 & Hoff0).
  destruct (submap_axis _ _ _ _ _ _ Hr (proj1 Hlt1) Hfit1 Hin1)
    as (Hk1 & Hsrc1 & Hoff1).
  set (k0 := offsetOfPosition p.1 _ _ r) in *.
  set (k1 := offsetOfPosition p.2 _ _ r) in *.
  destruct (copyData_lookup _ _ _ _ layer src (NoDup_fst_map_to_list _) Hcopy)
    as (dst & Hdst & Hlook).
  { by apply elem_of_map_to_list. }
  apply (copyRegions_spec src _ dst
           (getBufferIndexFromIndex lt0 n0 a0, getBufferIndexFromIndex lt1 n1 a1)
           (m0, m1) (n0, n1)) in Hdst as (Hdr & Hdc & Hcoeff).
  2: { split; apply Z.mod_pos_bound; simpl; lia. }
  2: { simpl; lia. }
  2: { simpl; lia. }
  2: { cbn [setStartIndex data_]. rewrite !lookup_fmap.
       match goal with
       | |- context [Eigen.resize m0 m1 <$> ?o] => destruct o
       end; [left; split; reflexivity|right; reflexivity]. }
  cbn [fst snd] in Hdr, Hdc.
  exists (Eigen.coeff dst k0 k1). split.
  - unfold atPosition, getIndex, getIndexFromPosition, checkIfPositionWithinMap.
    rewrite Hframe.
    cbn [with_data setStartIndex position_ length_ resolution_ size_
         startIndex_ fst snd].
    rewrite Hin0, Hin1. fold k0 k1. cbn [andb mbind option_bind].
    unfold getBufferIndexFromIndex, mapIndexWithinRange.
    rewrite !Z.add_0_r, !Z.mod_small by lia.
    unfold at_. cbn [data_ with_data fst snd]. rewrite Hlook.
    cbn [mbind option_bind]. apply Eigen_get_inRange; lia.
  - unfold atPosition, getIndex, getIndexFromPosition, checkIfPositionWithinMap.
    cbn [position_ length_ resolution_ size_ startIndex_ fst snd].
    rewrite Hsrc0, Hsrc1, Hoff0, Hoff1. cbn [andb mbind option_bind].
    unfold at_. cbn [data_ fst snd]. rewrite Hsrc.
    cbn [mbind option_bind].
    rewrite Eigen_get_inRange.
    + rewrite (Hcoeff k0 k1) by (split; simpl; lia). cbn [fst snd].
      rewrite !wrapped_index_shift by lia. done.
    + rewrite Hrows. apply Z.mod_pos_bound. lia.
    + rewrite Hcols. apply Z.mod_pos_bound. lia.
Qed.

Lemma GridMap_data_empty (layers : list string) (layer : string) (m : Matrix) :
  data_ (GridMap layers) !! layer = Some m → m = Eigen.empty.
Proof.
  unfold GridMap. cbn [data_].
  assert (H : ∀ d : gmap string Matrix,
             (∀ l m, d !! l = Some m → m = Eigen.empty) →
             ∀ l m,
               foldl (λ d layer,
                        match d !! layer with
                        | Some _ => d
                        | None => <[layer := Eigen.empty]> d
                        end) d layers !! l = Some m → m = Eigen.empty).
  { induction layers as [|x rest IH]; intros d Hd l m'; simpl; [apply Hd|].
    apply IH. intros l0 m0. destruct (d !! x) eqn:Hx; [apply Hd|].
    destruct (decide (x = l0)) as [->|Hne].
    - rewrite lookup_insert_eq. congruence.
    - rewrite lookup_insert_ne by done. apply Hd. }
  apply H. intros l m0. by rewrite lookup_empty.
Qed.

(** C8: a request whose window does not lie inside the bounds of the map
    makes [getSubmap] report failure and return the map built from the
    layer names alone: no geometry, no basic layers, and an empty buffer for
    every layer.  The source map is returned as it was. *)
Theorem getSubmap_outside_bounds (position : Position) (length : Length)
    (g : GridMap.t) :
  ¬ windowFits position length g →
  getSubmap position length g = Some (g, GridMap (layers_ g), false)
  ∧ size_ (GridMap (layers_ g)) = (0, 0)
  ∧ basicLayers_ (GridMap (layers_ g)) = []
  ∧ ∀ layer m, data_ (GridMap (layers_ g)) !! layer = Some m →
      Eigen.rows m = 0 ∧ Eigen.cols m = 0.
Proof.
  intros Hfit. split; [|split; [done|split; [done|]]].
  - unfold getSubmap, SubmapGeometry.make.
    replace (SubmapGeometry.fitsAxis _ _ _ _ && SubmapGeometry.fitsAxis _ _ _ _)
      with false; [done|].
    symmetry. apply not_true_iff_false. intros H. apply Hfit.
    unfold SubmapGeometry.fitsAxis in H.
    rewrite !andb_true_iff, !bool_decide_eq_true in H.
    unfold windowFits. tauto.
  - intros layer m Hm. by rewrite (GridMap_data_empty _ _ _ Hm).
Qed.

(** ** The start index *)

Lemma forLayers_frame (body : string → GridMap.t → option GridMap.t)
    (layers : list string) (g g' : GridMap.t) :
  (∀ layer g1 g2, body layer g1 = Some g2 →
     size_ g2 = size_ g1 ∧ startIndex_ g2 = startIndex_ g1) →
  forLayers body layers g = Some g' →
  size_ g' = size_ g ∧ startIndex_ g' = startIndex_ g.
Proof.
  intros Hbody. revert g. induction layers as [|layer rest IH]; intros g H;
    simpl in H.
  - by simplify_eq.
  - destruct (body layer g) as [g1|] eqn:Hg1; [|done]. simpl in H.
    destruct (Hbody _ _ _ Hg1) as [Hs Ha]. rewrite <- Hs, <- Ha. by apply IH.
Qed.

Lemma clear_frame (layer : string) (g g' : GridMap.t) :
  clear layer g = Some g' →
  size_ g' = size_ g ∧ startIndex_ g' = startIndex_ g.
Proof.
  unfold clear. intros H. destruct (data_ g !! layer); [|done].
  by simplify_eq/=.
Qed.

Lemma getSubmap_source (position : Position) (length : Length)
    (g g0 sub : GridMap.t) (ok : bool) :
  getSubmap position length g = Some (g0, sub, ok) → g0 = g.
Proof.
  unfold getSubmap. intros H.
  destruct (SubmapGeometry.make _ _ _ _ _ _ _); [|by simplify_eq].
  destruct (setGeometry' _ _); [|done]. cbn [mbind option_bind] in H.
  destruct (Decomposer.getBufferRegionsForSubmap _ _ _ _); [|by simplify_eq].
  destruct (copyData _ _ _); [|done]. cbn [mbind option_bind] in H.
  by simplify_eq.
Qed.

Lemma getSubmap_startIndex (position : Position) (length : Length)
    (g g0 sub : GridMap.t) :
  getSubmap position length g = Some (g0, sub, true) →
  startIndex_ sub = (0, 0).
Proof.
  intros H.
  apply getSubmap_success in H as (info & sub0 & regions & _ & _ & _ & Hcopy & _).
  apply copyData_frame in Hcopy. by rewrite Hcopy.
Qed.

(** C6, as the code has it: on a well-formed map with a positive resolution
    whose start index is in range, [add], [erase], [clear], [clearBasic] and [clearAll] leave a
    start index in range, and [move] returns a map whose start index is in
    range.  [setStartIndex] stores the index it is given, so that the start
    index is in range afterwards exactly when that index is.  [setGeometry]
    leaves the start index (0, 0), which is in range exactly when the new
    size is positive on both axes.  [getSubmap] returns the source as it
    was, and on success a map with the start index (0, 0), in range exactly
    when its size is positive on both axes. *)
Theorem startIndex_in_range_after_operations (g : GridMap.t) :
  (0 < resolution_ g)%Qc → dimsOk g → basicOk g → startOk g →
  (∀ layer data g', add layer data g = Some g' → startOk g')
  ∧ (∀ layer, startOk (erase layer g).2)
  ∧ (∀ layer g', clear layer g = Some g' → startOk g')
  ∧ (∀ g', clearBasic g = Some g' → startOk g')
  ∧ startOk (clearAll g)
  ∧ (∀ position indeces sizes,
       ∃ r, move position indeces sizes g = Some r ∧ startOk r.1.1.2)
  ∧ (∀ index, startOk (setStartIndex index g) ↔ indexOk (size_ g) index)
  ∧ (∀ length resolution position g',
       setGeometry length resolution position g = Some g' →
       startIndex_ g' = (0, 0)
       ∧ (startOk g' ↔ 0 < (size_ g').1 ∧ 0 < (size_ g').2))
  ∧ (∀ position length g0 sub ok,
       getSubmap position length g = Some (g0, sub, ok) →
       g0 = g
       ∧ (ok = true →
          startIndex_ sub = (0, 0)
          ∧ (startOk sub ↔ 0 < (size_ sub).1 ∧ 0 < (size_ sub).2))).
Proof.
  intros _ Hdim Hb Hst.
  repeat match goal with |- _ ∧ _ => split end.
  - intros layer data g' H. unfold add in H.
    destruct (_ && _); [|done].
    destruct (exists_ layer g); by simplify_eq.
  - intros layer. unfold erase. destruct (data_ g !! layer); [|done].
    by destruct (bool_decide _).
  - intros layer g' H. apply clear_frame in H as [Hs Ha].
    unfold startOk. by rewrite Hs, Ha.
  - intros g' H. apply (forLayers_frame clear) in H as [Hs Ha];
      [|apply clear_frame].
    unfold startOk. by rewrite Hs, Ha.
  - exact Hst.
  - intros position indeces sizes.
    destruct (move_spec position indeces sizes g Hdim Hb)
      as (g' & ixs & szs & Hmove & Hsz & Hstart & _).
    eexists. split; [exact Hmove|]. cbn [fst snd].
    unfold startOk. rewrite Hsz, Hstart.
    destruct Hst as [H1 H2].
    split; apply Z.mod_pos_bound; lia.
  - intros [i j]. unfold startOk, indexOk. done.
  - intros length resolution position g' H.
    apply setGeometry_Some in H as [_ ->]. split; [done|].
    unfold startOk. cbn [startIndex_ size_ fst snd]. lia.
  - intros position length g0 sub ok H.
    split; [by eapply getSubmap_source|]. intros ->.
    apply getSubmap_startIndex in H. split; [done|].
    unfold startOk. rewrite H. cbn [fst snd]. lia.
Qed.

(** ** The worked examples *)

Ltac by_computation := apply (bool_decide_unpack _); vm_compute; exact I.

Lemma isValid_empty_layers_false_witness :
  isValid_layers (0, 0) [] exampleMap = Some false
  ∧ isValid (0, 0) (GridMap ["elevation"]) = Some false.
Proof.
  split.
  - apply (isValid_empty_layers_false (0, 0) exampleMap).
  - apply (isValid_empty_layers_false (0, 0) (GridMap ["elevation"])).
    reflexivity.
Defined.

Ltac is_double m e :=
  exists m, e; split; [lia|]; split; [lia|]; vm_compute; reflexivity.


Lemma getIndex_getPosition_roundtrip_witness :
  ∃ position, getPosition (2, 1) wrappedMap = Some position
              ∧ getIndex position wrappedMap = Some (2, 1).
Proof.
  apply (getIndex_getPosition_roundtrip wrappedMap (2, 1)).
  - by_computation.
  - reflexivity.
  - by_computation.
  - by_computation.
Defined.

Lemma move_to_current_position_witness :
  startOk wrappedMap
  ∧ move (position_ wrappedMap) [] [] wrappedMap
    = Some (false, wrappedMap, [], []).
Proof.
  assert (Hs : startOk wrappedMap) by by_computation.
  split; [exact Hs|].
  destruct (move_to_current_position wrappedMap [] [])
    as (Hmove & _ & Hsame); [by_computation..|].
  rewrite Hmove. apply Hsame in Hs. rewrite Hs. reflexivity.
Defined.

(** C9, as stated, fails: after [setStartIndex] with the index (5, 5) the
    example map of 3 x 2 cells is a grid state whose start index is out
    of range; [move] to its own position returns false and leaves the
    start index (2, 1). *)
Lemma move_to_current_position_changes_startIndex :
  ∃ g',
    move (position_ (setStartIndex (5, 5) exampleMap)) [] []
      (setStartIndex (5, 5) exampleMap)
    = Some (false, g', [], [])
    ∧ startIndex_ (setStartIndex (5, 5) exampleMap) = (5, 5)
    ∧ startIndex_ g' = (2, 1)
    ∧ g' ≠ setStartIndex (5, 5) exampleMap.
Proof.
  eexists. split; [vm_compute; reflexivity|].
  split; [reflexivity|]. split; [reflexivity|].
  intros H. apply (f_equal startIndex_) in H. discriminate H.
Qed.

Lemma move_invalidates_new_cells_and_keeps_old_witness :
  Z.abs (indexShiftOf (QcZ 1, QcZ (-1)) wrappedMap).1 < 3
  ∧ Z.abs (indexShiftOf (QcZ 1, QcZ (-1)) wrappedMap).2 < 2
  ∧ ∃ moved g' indeces sizes,
      move (QcZ 1, QcZ (-1)) [] [] wrappedMap = Some (moved, g', indeces, sizes)
      ∧ ∀ index, indexOk (size_ wrappedMap) index →
          let before :=
            logicalBeforeMove (indexShiftOf (QcZ 1, QcZ (-1)) wrappedMap)
              (logicalIndex g' index) in
          (¬ indexOk (size_ wrappedMap) before →
             ∀ layer, layer ∈ basicLayers_ wrappedMap →
               at_ layer index g' = Some NAN)
          ∧ (indexOk (size_ wrappedMap) before →
             ∀ layer, at_ layer index g' = at_ layer index wrappedMap).
Proof.
  assert (H1 : Z.abs (indexShiftOf (QcZ 1, QcZ (-1)) wrappedMap).1 < 3)
    by by_computation.
  assert (H2 : Z.abs (indexShiftOf (QcZ 1, QcZ (-1)) wrappedMap).2 < 2)
    by by_computation.
  split; [exact H1|]. split; [exact H2|].
  apply (move_invalidates_new_cells_and_keeps_old (QcZ 1, QcZ (-1)) [] []
           wrappedMap);
    [by_computation|by_computation|by_computation|exact H1|exact H2].
Defined.

Lemma move_beyond_extent_clears_every_layer_witness :
  Z.abs (indexShiftOf (QcZ 3, 0%Qc) exampleMap).1 >= (size_ exampleMap).1
  ∧ ∃ moved g' indeces sizes,
      move (QcZ 3, 0%Qc) [] [] exampleMap = Some (moved, g', indeces, sizes)
      ∧ layers_ g' = layers_ exampleMap
      ∧ ∀ layer index,
          is_Some (data_ exampleMap !! layer) →
          indexOk (size_ exampleMap) index →
          at_ layer index g' = Some NAN.
Proof.
  assert (H1 : Z.abs (indexShiftOf (QcZ 3, 0%Qc) exampleMap).1
               >= (size_ exampleMap).1) by by_computation.
  split; [exact H1|].
  apply (move_beyond_extent_clears_every_layer (QcZ 3, 0%Qc) [] [] exampleMap);
    [by_computation|by_computation|by_computation|left; exact H1].
Defined.

(** C3, as stated, fails: the layer "color" is not a basic layer of the
    example map, its cell (0, 0) holds a finite value, and a [move] by the
    full extent of the first axis leaves NaN in it. *)
Lemma move_beyond_extent_clears_non_basic_layer :
  Z.abs (indexShiftOf (QcZ 3, 0%Qc) exampleMap).1 >= (size_ exampleMap).1
  ∧ ("color" ∉ basicLayers_ exampleMap)
  ∧ at_ "color" (0, 0) exampleMap = Some (finiteCell 1)
  ∧ (∃ g', move (QcZ 3, 0%Qc) [] [] exampleMap = Some (true, g', [], [])
           ∧ at_ "color" (0, 0) g' = Some NAN).
Proof.
  split; [by_computation|]. split; [by_computation|].
  split; [reflexivity|].
  eexists. split; [vm_compute; reflexivity|]. vm_compute. reflexivity.
Qed.

(** C4: the code at a failing input.  A [move] by one cell along the first
    axis clears the row 0 of the basic layer, that is the cells (0, 0) and
    (0, 1), and reports the region of index (0, 0) and size (3, 1), that is
    the column 0.  The cell (0, 1) is cleared and not reported; the cell
    (1, 0) is reported and keeps its value. *)
Theorem move_reports_transposed_region :
  ∃ g', move (QcZ 1, 0%Qc) [] [] exampleMap
        = Some (true, g', [(0, 0)], [(3, 1)])
    ∧ at_ "elevation" (0, 1) exampleMap = Some (finiteCell 2)
    ∧ at_ "elevation" (0, 1) g' = Some NAN
    ∧ inRegion (0, 0) (3, 1) (0, 1) = false
    ∧ inRegion (0, 0) (3, 1) (1, 0) = true
    ∧ at_ "elevation" (1, 0) exampleMap = Some (finiteCell 3)
    ∧ at_ "elevation" (1, 0) g' = Some (finiteCell 3).
Proof.
  eexists. split; [vm_compute; reflexivity|].
  repeat split; vm_compute; reflexivity.
Qed.

Lemma getSubmap_values_agree_witness :
  getSubmap (half, 0%Qc) (QcZ 2, QcZ 2) wrappedMap
  = Some (wrappedMap, exampleSubmap, true)
  ∧ isInside (1%Qc, (- half)%Qc) exampleSubmap = true
  ∧ ∃ v, atPosition "color" (1%Qc, (- half)%Qc) exampleSubmap = Some v
         ∧ atPosition "color" (1%Qc, (- half)%Qc) wrappedMap = Some v.
Proof.
  assert (H1 : getSubmap (half, 0%Qc) (QcZ 2, QcZ 2) wrappedMap
               = Some (wrappedMap, exampleSubmap, true))
    by (vm_compute; reflexivity).
  assert (H2 : isInside (1%Qc, (- half)%Qc) exampleSubmap = true)
    by (vm_compute; reflexivity).
  split; [exact H1|]. split; [exact H2|].
  apply (getSubmap_values_agree (half, 0%Qc) (QcZ 2, QcZ 2) wrappedMap
           wrappedMap exampleSubmap).
  - by_computation.
  - reflexivity.
  - by_computation.
  - by_computation.
  - exact H1.
  - by_computation.
  - exact H2.
Defined.

Lemma getSubmap_outside_bounds_witness :
  ¬ windowFits (1%Qc, 0%Qc) (QcZ 2, QcZ 2) exampleMap
  ∧ getSubmap (1%Qc, 0%Qc) (QcZ 2, QcZ 2) exampleMap
    = Some (exampleMap, GridMap (layers_ exampleMap), false).
Proof.
  assert (H : ¬ windowFits (1%Qc, 0%Qc) (QcZ 2, QcZ 2) exampleMap)
    by by_computation.
  split; [exact H|].
  apply (getSubmap_outside_bounds (1%Qc, 0%Qc) (QcZ 2, QcZ 2) exampleMap H).
Defined.

Lemma startIndex_in_range_after_operations_witness :
  startOk wrappedMap
  ∧ startOk (clearAll wrappedMap)
  ∧ ∃ r, move (QcZ 1, 0%Qc) [] [] wrappedMap = Some r ∧ startOk r.1.1.2.
Proof.
  assert (H : startOk wrappedMap) by by_computation.
  split; [exact H|].
  destruct (startIndex_in_range_after_operations wrappedMap
              ltac:(by_computation) ltac:(by_computation)
              ltac:(by_computation) H)
    as (_ & _ & _ & _ & Hclear & Hmove & _).
  split; [exact Hclear|]. apply Hmove.
Defined.

(** C6, as stated, fails: [setStartIndex] stores whatever index it is
    given. *)
Lemma setStartIndex_out_of_range :
  startOk exampleMap
  ∧ startIndex_ (setStartIndex (5, 5) exampleMap) = (5, 5)
  ∧ size_ (setStartIndex (5, 5) exampleMap) = (3, 2)
  ∧ ¬ startOk (setStartIndex (5, 5) exampleMap).
Proof.
  split; [by_computation|]. split; [reflexivity|]. split; [reflexivity|].
  by_computation.
Qed.

(** The example of the specification: moving the 10 x 10 map to (3.4, 0)
    shifts it by 3 cells on the first axis, returns true, advances the
    start index to (3, 0) and snaps the centre to (3, 0); the three lines
    that are new hold NaN and the others keep their value. *)
Lemma move_example_of_the_specification :
  ∃ g' indeces sizes,
    move (Q2Qc (34 # 10), 0%Qc) [] [] specExampleMap
    = Some (true, g', indeces, sizes)
    ∧ indexShiftOf (Q2Qc (34 # 10), 0%Qc) specExampleMap = (3, 0)
    ∧ startIndex_ g' = (3, 0)
    ∧ this (position_ g').1 = inject_Z 3 ∧ this (position_ g').2 = inject_Z 0
    ∧ isValid (0, 4) g' = Some false
    ∧ isValid (2, 4) g' = Some false
    ∧ isValid (3, 4) g' = Some true
    ∧ isValid (9, 4) g' = Some true.
Proof.
  eexists _, _, _. split; [vm_compute; reflexivity|].
  repeat split; vm_compute; reflexivity.
Qed.

(** * Further properties of the code *)

(** ** Layers: the constructor, add, erase *)

Lemma GridMap_data_lookup (layers : list string) (layer : string) :
  data_ (GridMap layers) !! layer
  = if bool_decide (layer ∈ layers) then Some Eigen.empty else None.
Proof.
  unfold GridMap. cbn [data_].
  assert (H : ∀ d : gmap string Matrix,
            foldl (λ d layer,
                     match d !! layer with
                     | Some _ => d
                     | None => <[layer := Eigen.empty]> d
                     end) d layers !! layer
            = match d !! layer with
              | Some m => Some m
              | None => if bool_decide (layer ∈ layers)
                        then Some Eigen.empty else None
              end).
  { induction layers as [|x rest IH]; intros d; simpl.
    - by destruct (d !! layer).
    - rewrite IH. destruct (d !! x) eqn:Hx.
      + destruct (d !! layer) eqn:Hl; [done|].
        assert (x ≠ layer) by congruence.
        apply (f_equal (λ b : bool, if b then Some Eigen.empty else None)).
        apply bool_decide_ext. rewrite elem_of_cons.
        intuition congruence.
      + destruct (decide (x = layer)) as [->|Hne].
        * rewrite lookup_insert_eq, Hx.
          rewrite (bool_decide_eq_true_2 (layer ∈ layer :: rest)); [done|].
          apply elem_of_cons. by left.
        * rewrite lookup_insert_ne by done.
          destruct (d !! layer); [done|].
          apply (f_equal (λ b : bool, if b then Some Eigen.empty else None)).
          apply bool_decide_ext. rewrite elem_of_cons.
          intuition congruence. }
  rewrite H, lookup_empty. done.
Qed.

(** X1: the constructor gives every listed layer an empty buffer and no
    other layer a buffer; the layers are the list it was given, there is no
    basic layer, and the size is (0, 0). *)
Theorem GridMap_constructor_layers (layers : list string) (layer : string) :
  get layer (GridMap layers)
  = (if bool_decide (layer ∈ layers) then Some Eigen.empty else None)
  ∧ (exists_ layer (GridMap layers) = true ↔ layer ∈ layers)
  ∧ getLayers (GridMap layers) = layers
  ∧ getBasicLayers (GridMap layers) = []
  ∧ getSize (GridMap layers) = (0, 0).
Proof.
  split; [apply GridMap_data_lookup|]. split; [|done].
  unfold exists_. rewrite bool_decide_eq_true, GridMap_data_lookup.
  destruct (bool_decide (layer ∈ layers)) eqn:H.
  - apply bool_decide_eq_true in H. split; [done|]. by eexists.
  - apply bool_decide_eq_false in H. split; [|done]. by intros [? ?].
Qed.

(** X2: [add] fails exactly when the dimensions of the data differ from the
    size of the map.  When it returns, the layer exists and [get] returns
    the data that was added, every other layer reads as before, the name is
    appended to the layers only if the layer did not exist, and the basic
    layers, the size and the start index are unchanged. *)
Theorem add_then_get (layer : string) (data : Matrix) (g : GridMap.t) :
  (add layer data g = None
   ↔ ¬ (Eigen.rows data = (size_ g).1 ∧ Eigen.cols data = (size_ g).2))
  ∧ ∀ g', add layer data g = Some g' →
      get layer g' = Some data
      ∧ exists_ layer g' = true
      ∧ (∀ other, other ≠ layer → get other g' = get other g)
      ∧ getLayers g'
        = (if exists_ layer g then getLayers g else getLayers g ++ [layer])
      ∧ getBasicLayers g' = getBasicLayers g
      ∧ getSize g' = getSize g ∧ getStartIndex g' = getStartIndex g.
Proof.
  unfold add. split.
  - destruct (bool_decide ((size_ g).1 = Eigen.rows data)) eqn:H1;
      [apply bool_decide_eq_true in H1|apply bool_decide_eq_false in H1];
      (destruct (bool_decide ((size_ g).2 = Eigen.cols data)) eqn:H2;
       [apply bool_decide_eq_true in H2|apply bool_decide_eq_false in H2]);
      cbn [andb]; try (split; [done|]; intros []; split; congruence);
      try (split; [intros _; intros [? ?]; congruence|done]).
    destruct (exists_ layer g); split; try done; intros []; split; congruence.
  - intros g' H. destruct (_ && _); [|done].
    assert (Hdata : data_ g' = <[layer := data]> (data_ g)
                    ∧ layers_ g'
                      = (if exists_ layer g then layers_ g
                         else layers_ g ++ [layer])
                    ∧ basicLayers_ g' = basicLayers_ g
                    ∧ size_ g' = size_ g ∧ startIndex_ g' = startIndex_ g).
    { destruct (exists_ layer g); by simplify_eq. }
    destruct Hdata as (Hd & Hl & Hb & Hs & Ha).
    unfold get, exists_, getLayers, getBasicLayers, getSize, getStartIndex.
    rewrite Hd, lookup_insert_eq.
    split; [done|]. split; [by apply bool_decide_eq_true_2|].
    split; [by intros other Hne; rewrite lookup_insert_ne|done].
Qed.

(** X3: [erase] returns true exactly when the layer has a buffer and is
    listed in the layers; a layer without a buffer leaves the map as it is
    and returns false.  In every case the layer does not exist afterwards
    and every other layer reads as before; when [erase] returns true, the
    layers and the basic layers have lost the first occurrence of the
    name. *)
Theorem erase_result (layer : string) (g : GridMap.t) :
  ((erase layer g).1 = true
   ↔ is_Some (data_ g !! layer) ∧ layer ∈ layers_ g)
  ∧ (data_ g !! layer = None → erase layer g = (false, g))
  ∧ exists_ layer (erase layer g).2 = false
  ∧ (∀ other, other ≠ layer →
       get other (erase layer g).2 = get other g)
  ∧ ((erase layer g).1 = true →
       getLayers (erase layer g).2 = eraseFirst layer (getLayers g)
       ∧ getBasicLayers (erase layer g).2
         = eraseFirst layer (getBasicLayers g)).
Proof.
  unfold erase, exists_, get.
  destruct (data_ g !! layer) as [m|] eqn:Hm.
  - cbn [layers_ with_data].
    destruct (bool_decide (layer ∈ layers_ g)) eqn:Hl;
      [apply bool_decide_eq_true in Hl|apply bool_decide_eq_false in Hl];
      cbn [fst snd data_ with_data getLayers getBasicLayers layers_
           basicLayers_].
    + split; [split; [intros _; split; [by eexists|done]|done]|].
      split; [done|]. split.
      { apply bool_decide_eq_false_2. rewrite lookup_delete_eq.
        by intros [? ?]. }
      split; [|done]. intros other Hne. by rewrite lookup_delete_ne.
    + split; [split; [done|by intros [_ ?]]|].
      split; [done|]. split.
      { apply bool_decide_eq_false_2. rewrite lookup_delete_eq.
        by intros [? ?]. }
      split; [|done]. intros other Hne. by rewrite lookup_delete_ne.
  - cbn [fst snd]. split; [split; [done|by intros [[? ?] _]]|].
    split; [done|]. split; [|done].
    apply bool_decide_eq_false_2. rewrite Hm. by intros [? ?].
Qed.

Lemma eraseFirst_app_fresh (layer : string) (l : list string) :
  layer ∉ l → eraseFirst layer (l ++ [layer]) = l.
Proof.
  induction l as [|x rest IH]; intros Hn; simpl.
  - by rewrite decide_True.
  - apply not_elem_of_cons in Hn as [Hne Hn].
    rewrite decide_False by congruence. by rewrite IH.
Qed.

Lemma eraseFirst_fresh (layer : string) (l : list string) :
  layer ∉ l → eraseFirst layer l = l.
Proof.
  induction l as [|x rest IH]; intros Hn; simpl; [done|].
  apply not_elem_of_cons in Hn as [Hne Hn].
  rewrite decide_False by congruence. by rewrite IH.
Qed.

(** X4: erasing a layer that was just added to a map that did not know
    the name, neither in its buffers nor in its lists of layers, returns
    true and gives back the map as it was before the [add]. *)
Theorem erase_after_add (layer : string) (data : Matrix) (g g' : GridMap.t) :
  data_ g !! layer = None → layer ∉ layers_ g → layer ∉ basicLayers_ g →
  add layer data g = Some g' →
  erase layer g' = (true, g).
Proof.
  intros Hnone Hl Hb Hadd. unfold add in Hadd.
  destruct (_ && _); [|done].
  unfold exists_ in Hadd. rewrite bool_decide_eq_false_2 in Hadd.
  2: { rewrite Hnone. by intros [? ?]. }
  simplify_eq. unfold erase. cbn [data_ with_data layers_ basicLayers_].
  rewrite lookup_insert_eq.
  rewrite bool_decide_eq_true_2.
  2: { apply elem_of_app. right. apply list_elem_of_singleton. done. }
  cbn [position_ length_ resolution_ size_ startIndex_ timestamp_ frameId_
       layers_ basicLayers_ data_ with_data].
  rewrite eraseFirst_app_fresh, eraseFirst_fresh by done.
  rewrite delete_insert_eq, delete_id by done.
  by destruct g.
Qed.

(** ** Validity *)

(** X5: [isValid(index, layers)] returns true exactly when the list of
    layers is not empty and every layer of the list has a finite value at
    the index. *)
Theorem isValid_layers_true_iff (index : Index) (layers : list string)
    (g : GridMap.t) :
  isValid_layers index layers g = Some true
  ↔ layers ≠ []
    ∧ ∀ layer, layer ∈ layers →
        ∃ v, at_ layer index g = Some v ∧ isfinite v = true.
Proof.
  assert (Hloop : ∀ l, isValid_loop index l g = Some true
            ↔ ∀ layer, layer ∈ l →
                ∃ v, at_ layer index g = Some v ∧ isfinite v = true).
  { induction l as [|x rest IH]; simpl.
    - split; [|done]. intros _ layer H. by apply elem_of_nil in H.
    - destruct (at_ x index g) as [v|] eqn:Hv; simpl.
      + destruct (isfinite v) eqn:Hf; simpl.
        * rewrite IH. split.
          -- intros H layer Hin. apply elem_of_cons in Hin as [->|Hin];
               [by exists v|by apply H].
          -- intros H layer Hin. apply H. apply elem_of_cons. by right.
        * split; [done|]. intros H.
          destruct (H x) as (v' & Hv' & Hf'); [apply elem_of_cons; by left|].
          congruence.
      + split; [done|]. intros H.
        destruct (H x) as (v' & Hv' & Hf'); [apply elem_of_cons; by left|].
        congruence. }
  destruct layers as [|x rest].
  - simpl. split; [done|]. by intros [? _].
  - unfold isValid_layers. rewrite Hloop. split; [by intros H|by intros [_ H]].
Qed.

(** X6: after [clearAll] no index is valid, whatever layers are asked
    for: [isValid(index, layers)] never returns true. *)
Theorem isValid_after_clearAll (index : Index) (layers : list string)
    (g : GridMap.t) :
  isValid_layers index layers (clearAll g) ≠ Some true.
Proof.
  destruct layers as [|x rest]; [done|].
  unfold isValid_layers, isValid_loop, at_, clearAll.
  cbn [data_ with_data]. rewrite lookup_fmap.
  destruct (data_ g !! x) as [m|]; [|done].
  cbn [fmap option_fmap option_map mbind option_bind].
  unfold Eigen.get. by destruct (Eigen.inRange _ _ _).
Qed.

(** X7: [getVector] returns the vector (x, y, z) exactly when the three
    layers prefix + "x", prefix + "y" and prefix + "z" hold the finite
    values x, y and z at the index. *)
Theorem getVector_Some_iff (layerPrefix : string) (index : Index)
    (g : GridMap.t) (x y z : cell) :
  getVector layerPrefix index g = Some (Some (x, y, z))
  ↔ at_ (layerPrefix +:+ "x") index g = Some x
    ∧ at_ (layerPrefix +:+ "y") index g = Some y
    ∧ at_ (layerPrefix +:+ "z") index g = Some z
    ∧ isfinite x = true ∧ isfinite y = true ∧ isfinite z = true.
Proof.
  unfold getVector, isValid_layers, isValid_loop.
  destruct (at_ (layerPrefix +:+ "x") index g) as [vx|]; cbn;
    [|split; [done|by intros (? & _)]].
  destruct (isfinite vx) eqn:Hx; cbn;
    [|split; [done|intros (? & _ & _ & ? & _); congruence]].
  destruct (at_ (layerPrefix +:+ "y") index g) as [vy|]; cbn;
    [|split; [done|by intros (_ & ? & _)]].
  destruct (isfinite vy) eqn:Hy; cbn;
    [|split; [done|intros (_ & ? & _ & _ & ? & _); congruence]].
  destruct (at_ (layerPrefix +:+ "z") index g) as [vz|]; cbn;
    [|split; [done|by intros (_ & _ & ? & _)]].
  destruct (isfinite vz) eqn:Hz; cbn;
    [|split; [done|intros (_ & _ & ? & _ & _ & ?); congruence]].
  split.
  - intros H. by simplify_eq.
  - intros (? & ? & ? & _). by simplify_eq.
Qed.

(** ** Clearing *)

Lemma clear_clearedBy (layer : string) (g g' : GridMap.t) :
  clear layer g = Some g' →
  clearedBy (λ l _ _, bool_decide (l = layer)) g g'.
Proof.
  unfold clear. intros H.
  destruct (data_ g !! layer) as [m|] eqn:Hm; [|done].
  cbn in H. simplify_eq. split; [done|].
  intros l. cbn [data_ with_data].
  destruct (decide (l = layer)) as [->|Hne].
  - rewrite lookup_insert_eq, Hm. constructor. repeat split.
    intros a b _ _. by rewrite bool_decide_eq_true_2.
  - rewrite lookup_insert_ne by done.
    destruct (data_ g !! l); constructor. repeat split.
    intros a b _ _. by rewrite bool_decide_eq_false_2.
Qed.

Lemma clearedBy_is_Some P (g g' : GridMap.t) (layer : string) :
  clearedBy P g g' → is_Some (data_ g' !! layer) ↔ is_Some (data_ g !! layer).
Proof.
  intros [_ Hd]. specialize (Hd layer).
  destruct Hd; split; intros [? ?]; by eauto.
Qed.

Lemma forLayers_clear (layers : list string) (g : GridMap.t) :
  (is_Some (forLayers clear layers g)
   ↔ Forall (λ layer, is_Some (data_ g !! layer)) layers)
  ∧ ∀ g', forLayers clear layers g = Some g' →
      clearedBy (λ l _ _, bool_decide (l ∈ layers)) g g'.
Proof.
  revert g. induction layers as [|layer rest IH]; intros g.
  - split; [split; [constructor|by eexists]|].
    intros g' H. cbn in H. simplify_eq.
    eapply clearedBy_ext_all; [|apply clearedBy_refl].
    intros l a b. rewrite bool_decide_eq_false_2; [done|].
    apply not_elem_of_nil.
  - cbn [forLayers].
    destruct (clear layer g) as [g1|] eqn:Hg1; cbn [mbind option_bind].
    + pose proof (clear_clearedBy _ _ _ Hg1) as Hc1.
      destruct (IH g1) as [IH1 IH2]. split.
      * rewrite IH1.
        assert (is_Some (data_ g !! layer)) as Hl.
        { unfold clear in Hg1. destruct (data_ g !! layer); [by eexists|done]. }
        split.
        -- intros H. constructor; [done|].
           eapply Forall_impl; [|exact H]. cbn. intros l.
           by rewrite (clearedBy_is_Some _ _ _ l Hc1).
        -- intros H. inversion H as [|? ? _ Hrest]; subst.
           eapply Forall_impl; [|exact Hrest]. cbn. intros l.
           by rewrite (clearedBy_is_Some _ _ _ l Hc1).
      * intros g' Hg'. specialize (IH2 g' Hg').
        eapply clearedBy_ext_all; [|exact (clearedBy_trans _ _ _ _ _ Hc1 IH2)].
        intros l a b. cbn. apply eq_true_iff_eq.
        rewrite orb_true_iff, !bool_decide_eq_true, elem_of_cons. done.
    + split; [|done]. split; [by intros [? ?]|].
      intros H. inversion H as [|? ? [m Hm] _]; subst.
      unfold clear in Hg1. by rewrite Hm in Hg1.
Qed.

(** X8: [clearBasic] returns exactly when every basic layer has a buffer
    (it throws at the first one that has none); it then sets every cell
    of the basic layers to NaN and changes nothing else. *)
Theorem clearBasic_effect (g : GridMap.t) :
  (is_Some (clearBasic g) ↔ basicOk g)
  ∧ ∀ g', clearBasic g = Some g' →
      clearedBy (λ layer _ _, bool_decide (layer ∈ basicLayers_ g)) g g'.
Proof. unfold clearBasic, basicOk. apply forLayers_clear. Qed.

(** X9: on a map whose buffers have the dimensions of the size and whose
    basic layers exist, [clearCols(index, n)] with the block inside the
    buffer sets to NaN the cells of the basic layers whose first index is
    in [index, index + n), and [clearRows(index, n)] those whose second
    index is; nothing else changes.  With a basic layer and a block that
    leaves the buffer, both fail. *)
Theorem clearCols_clearRows_effect (index n : Z) (g : GridMap.t) :
  dimsOk g → basicOk g →
  (0 <= index ∧ 0 <= n ∧ index + n <= (size_ g).1 →
   ∃ g', clearCols index n g = Some g'
     ∧ clearedBy (λ layer a b, bool_decide (layer ∈ basicLayers_ g)
                               && bool_decide (index <= a < index + n)) g g')
  ∧ (0 <= index ∧ 0 <= n ∧ index + n <= (size_ g).2 →
     ∃ g', clearRows index n g = Some g'
       ∧ clearedBy (λ layer a b, bool_decide (layer ∈ basicLayers_ g)
                                 && bool_decide (index <= b < index + n)) g g')
  ∧ (basicLayers_ g ≠ [] →
     ¬ (0 <= index ∧ 0 <= n ∧ index + n <= (size_ g).1) →
     clearCols index n g = None)
  ∧ (basicLayers_ g ≠ [] →
     ¬ (0 <= index ∧ 0 <= n ∧ index + n <= (size_ g).2) →
     clearRows index n g = None).
Proof.
  intros Hdim Hb. pose proof Hdim as (Hs1 & Hs2 & Hdim').
  split; [|split; [|split]].
  - intros (H0 & Hn & Hle).
    destruct (forLayers_clearBlock index 0 n (getSize g).2
                (basicLayers_ g) g Hb) as (g' & Hg' & Hc).
    { intros l m Hm. apply Hdim' in Hm as [Hr Hc]. cbn beta.
      apply validBlock_true. unfold getSize. lia. }
    exists g'. split; [exact Hg'|].
    eapply clearedBy_ext; [done| |exact Hc].
    intros l a b [Ha Hb']. cbn in Ha, Hb'. cbn beta. f_equal.
    apply eq_true_iff_eq. rewrite inBlock_true, bool_decide_eq_true.
    unfold getSize. lia.
  - intros (H0 & Hn & Hle).
    destruct (forLayers_clearBlock 0 index (getSize g).1 n
                (basicLayers_ g) g Hb) as (g' & Hg' & Hc).
    { intros l m Hm. apply Hdim' in Hm as [Hr Hc]. cbn beta.
      apply validBlock_true. unfold getSize. lia. }
    exists g'. split; [exact Hg'|].
    eapply clearedBy_ext; [done| |exact Hc].
    intros l a b [Ha Hb']. cbn in Ha, Hb'. cbn beta. f_equal.
    apply eq_true_iff_eq. rewrite inBlock_true, bool_decide_eq_true.
    unfold getSize. lia.
  - intros Hne Hbad. unfold clearCols. unfold basicOk in Hb.
    destruct (basicLayers_ g) as [|layer rest]; [done|].
    inversion Hb as [|? ? [m Hm] _]; subst.
    cbn [forLayers]. unfold clearBlock, Eigen.block_setConstant.
    rewrite Hm. cbn [mbind option_bind].
    apply Hdim' in Hm as [Hr Hc].
    replace (Eigen.validBlock m index 0 n (getSize g).2) with false; [done|].
    symmetry. apply not_true_iff_false. rewrite validBlock_true.
    unfold getSize. lia.
  - intros Hne Hbad. unfold clearRows. unfold basicOk in Hb.
    destruct (basicLayers_ g) as [|layer rest]; [done|].
    inversion Hb as [|? ? [m Hm] _]; subst.
    cbn [forLayers]. unfold clearBlock, Eigen.block_setConstant.
    rewrite Hm. cbn [mbind option_bind].
    apply Hdim' in Hm as [Hr Hc].
    replace (Eigen.validBlock m 0 index (getSize g).1 n) with false; [done|].
    symmetry. apply not_true_iff_false. rewrite validBlock_true.
    unfold getSize. lia.
Qed.

(** ** What [move] does besides clearing *)

Lemma sameShape_refl (g : GridMap.t) : sameShape g g.
Proof.
  split; [by rewrite with_data_id|].
  intros layer. by destruct (data_ g !! layer); constructor.
Qed.

Lemma sameShape_trans (g g1 g2 : GridMap.t) :
  sameShape g g1 → sameShape g1 g2 → sameShape g g2.
Proof.
  intros [Hf1 Hd1] [Hf2 Hd2]. split.
  { rewrite Hf2 at 1. rewrite Hf1. reflexivity. }
  intros layer. specialize (Hd1 layer). specialize (Hd2 layer).
  destruct Hd1 as [m m1 [Hr1 Hc1]|]; inversion Hd2 as [? m2 [Hr2 Hc2]|];
    subst; constructor.
  split; congruence.
Qed.

Lemma clearedBy_sameShape P (g g' : GridMap.t) :
  clearedBy P g g' → sameShape g g'.
Proof.
  intros [Hf Hd]. split; [done|]. intros layer. specialize (Hd layer).
  destruct Hd as [m m' (Hr & Hc & _)|]; by constructor.
Qed.

Lemma clearBlock_sameShape (i j nr nc : Z) (layer : string)
    (g g' : GridMap.t) :
  clearBlock i j nr nc layer g = Some g' → sameShape g g'.
Proof.
  unfold clearBlock. intros H.
  destruct (data_ g !! layer) as [m|] eqn:Hm; [|done].
  cbn [mbind option_bind] in H.
  destruct (Eigen.block_setConstant i j nr nc NAN m) as [m'|] eqn:Hm';
    [|done].
  cbn [mbind option_bind] in H. simplify_eq.
  unfold Eigen.block_setConstant in Hm'.
  destruct (Eigen.validBlock m i j nr nc); [|done]. simplify_eq.
  split; [done|]. intros l. cbn [data_ with_data].
  destruct (decide (l = layer)) as [->|Hne].
  - rewrite lookup_insert_eq, Hm. by constructor.
  - rewrite lookup_insert_ne by done. by destruct (data_ g !! l); constructor.
Qed.

Lemma forLayers_sameShape (body : string → GridMap.t → option GridMap.t)
    (layers : list string) (g g' : GridMap.t) :
  (∀ layer g1 g2, body layer g1 = Some g2 → sameShape g1 g2) →
  forLayers body layers g = Some g' → sameShape g g'.
Proof.
  intros Hbody. revert g. induction layers as [|layer rest IH]; intros g H;
    cbn [forLayers] in H.
  - simplify_eq. apply sameShape_refl.
  - destruct (body layer g) as [g1|] eqn:Hg1; [|done].
    cbn [mbind option_bind] in H.
    eapply sameShape_trans; [by eapply Hbody|by apply IH].
Qed.

(** One call of [dropLines] records one line, among the column lines for
    the axis 0 and among the row lines for the axis 1. *)
Lemma dropLines_Some (i : nat) (index nCells : Z) (g g' : GridMap.t)
    (colLines rowLines colLines' rowLines' : list Lines.t) :
  dropLines i index nCells (g, colLines, rowLines)
  = Some (g', colLines', rowLines') →
  sameShape g g'
  ∧ ∃ newCols newRows,
      colLines' = colLines ++ newCols ∧ rowLines' = rowLines ++ newRows
      ∧ (length newCols + length newRows <= 1)%nat
      ∧ (i = 0%nat → newRows = []) ∧ (i = 1%nat → newCols = []).
Proof.
  unfold dropLines. intros H. destruct i as [|[|i]].
  - destruct (clearCols index nCells g) as [g1|] eqn:Hg1; [|done].
    cbn [mbind option_bind] in H. simplify_eq. split.
    + eapply forLayers_sameShape; [|exact Hg1].
      intros. by eapply clearBlock_sameShape.
    + exists [Lines.mk index nCells], []. rewrite app_nil_r.
      split; [done|]. split; [done|]. split; [cbn; lia|done].
  - destruct (clearRows index nCells g) as [g1|] eqn:Hg1; [|done].
    cbn [mbind option_bind] in H. simplify_eq. split.
    + eapply forLayers_sameShape; [|exact Hg1].
      intros. by eapply clearBlock_sameShape.
    + exists [], [Lines.mk index nCells]. rewrite app_nil_r.
      split; [done|]. split; [done|]. split; [cbn; lia|done].
  - simplify_eq. split; [apply sameShape_refl|].
    exists [], []. rewrite !app_nil_r.
    split; [done|]. split; [done|]. split; [cbn; lia|done].
Qed.

Lemma moveAxis_Some (indexShift : Index) (i : nat) (g g' : GridMap.t)
    (colLines rowLines colLines' rowLines' : list Lines.t) :
  moveAxis indexShift i (g, colLines, rowLines)
  = Some (g', colLines', rowLines') →
  sameShape g g'
  ∧ ∃ newCols newRows,
      colLines' = colLines ++ newCols ∧ rowLines' = rowLines ++ newRows
      ∧ (length newCols + length newRows <= 2)%nat
      ∧ (i = 0%nat → newRows = []) ∧ (i = 1%nat → newCols = []).
Proof.
  unfold moveAxis. intros H.
  destruct (bool_decide (coord i indexShift ≠ 0)).
  2: { simplify_eq. split; [apply sameShape_refl|].
       exists [], []. rewrite !app_nil_r.
       split; [done|]. split; [done|]. split; [cbn; lia|done]. }
  destruct (bool_decide (Z.abs (coord i indexShift) >= coord i (getSize g))).
  { simplify_eq. split.
    - eapply clearedBy_sameShape, clearAll_clearedBy.
    - exists [], []. rewrite !app_nil_r.
      split; [done|]. split; [done|]. split; [cbn; lia|done]. }
  destruct (bool_decide (_ <= _)).
  - apply dropLines_Some in H as (Hs & nc & nr & -> & -> & Hlen & H0 & H1).
    split; [done|]. exists nc, nr.
    split; [done|]. split; [done|]. split; [lia|done].
  - match type of H with
    | context [dropLines ?a ?b ?c ?d] =>
        destruct (dropLines a b c d) as [[[g1 cl1] rl1]|] eqn:H1; [|done]
    end.
    cbn [mbind option_bind] in H.
    apply dropLines_Some in H1 as (Hs1 & nc1 & nr1 & -> & -> & Hlen1 & Ha1 & Hb1).
    apply dropLines_Some in H as (Hs2 & nc2 & nr2 & -> & -> & Hlen2 & Ha2 & Hb2).
    split; [by eapply sameShape_trans|].
    exists (nc1 ++ nc2), (nr1 ++ nr2). rewrite !app_assoc.
    split; [done|]. split; [done|]. rewrite !length_app.
    split; [lia|]. split; intros Hi.
    + by rewrite (Ha1 Hi), (Ha2 Hi).
    + by rewrite (Hb1 Hi), (Hb2 Hi).
Qed.

(** What a returning [move] went through. *)
Lemma move_Some (position : Position) (newRegionIndeces : list Index)
    (newRegionSizes : list Size) (g g' : GridMap.t) (moved : bool)
    (indeces : list Index) (sizes : list Size) :
  move position newRegionIndeces newRegionSizes g
  = Some (moved, g', indeces, sizes) →
  let s := indexShiftOf position g in
  ∃ g1 colLines rowLines,
    sameShape g g1
    ∧ (length colLines <= 2)%nat ∧ (length rowLines <= 2)%nat
    ∧ (s = (0, 0) → g1 = g ∧ colLines = [] ∧ rowLines = [])
    ∧ moved = bool_decide (s.1 ≠ 0) || bool_decide (s.2 ≠ 0)
    ∧ g' = GridMap.mk
             (((position_ g).1 + QcZ s.1 * resolution_ g)%Qc,
              ((position_ g).2 + QcZ s.2 * resolution_ g)%Qc)
             (length_ g) (resolution_ g) (size_ g)
             (mapIndexWithinRange2
                ((startIndex_ g).1 + s.1, (startIndex_ g).2 + s.2) (size_ g))
             (timestamp_ g) (frameId_ g) (layers_ g) (basicLayers_ g)
             (data_ g1)
    ∧ indeces
      = newRegionIndeces
        ++ ((λ lines, (0, Lines.index_ lines) : Index) <$> colLines)
        ++ ((λ lines, (Lines.index_ lines, 0) : Index) <$> rowLines)
    ∧ sizes
      = newRegionSizes
        ++ ((λ lines, ((size_ g).1, Lines.size_ lines) : Size) <$> colLines)
        ++ ((λ lines, (Lines.size_ lines, (size_ g).2) : Size) <$> rowLines).
Proof.
  intros H. cbv zeta. set (s := indexShiftOf position g).
  unfold move in H. fold (indexShiftOf position g) in H. fold s in H.
  destruct (moveAxis s 0 (g, [], [])) as [[[g0 cl0] rl0]|] eqn:H0; [|done].
  cbn [mbind option_bind] in H.
  destruct (moveAxis s 1 (g0, cl0, rl0)) as [[[g1 cl1] rl1]|] eqn:H1; [|done].
  cbn [mbind option_bind] in H.
  assert (Hzero : s = (0, 0) → g1 = g ∧ cl1 = [] ∧ rl1 = []).
  { intros Hs. rewrite Hs in H0, H1. rewrite moveAxis_no_shift in H0.
    simplify_eq. rewrite moveAxis_no_shift in H1. by simplify_eq. }
  apply moveAxis_Some in H0
    as (Hs0 & nc0 & nr0 & Hc0 & Hr0 & Hlen0 & Hnr0 & _).
  apply moveAxis_Some in H1
    as (Hs1 & nc1 & nr1 & Hc1 & Hr1 & Hlen1 & _ & Hnc1).
  specialize (Hnr0 eq_refl). specialize (Hnc1 eq_refl).
  cbn [app] in Hc0, Hr0. subst nr0 nc1 cl0 rl0.
  rewrite app_nil_r in Hc1. cbn [app] in Hr1. subst cl1 rl1.
  cbn [length] in Hlen0, Hlen1.
  pose proof (sameShape_trans _ _ _ Hs0 Hs1) as Hs.
  exists g1, nc0, nr1.
  split; [done|]. split; [lia|]. split; [lia|]. split; [done|].
  destruct Hs as [Hf _]. rewrite Hf in H.
  cbn [position_ length_ resolution_ size_ startIndex_ timestamp_ frameId_
       layers_ basicLayers_ data_ with_data getSize fst snd] in H.
  unfold getPositionShiftFromIndexShift in H. cbn [fst snd] in H.
  by simplify_eq.
Qed.

(** X10: a [move] that returns reports true exactly when the index shift
    is not (0, 0); it leaves the size, the length, the resolution, the
    layers, the basic layers, the timestamp and the frame as they were,
    and every buffer keeps its dimensions. *)
Theorem move_frame (position : Position) (newRegionIndeces : list Index)
    (newRegionSizes : list Size) (g g' : GridMap.t) (moved : bool)
    (indeces : list Index) (sizes : list Size) :
  move position newRegionIndeces newRegionSizes g
  = Some (moved, g', indeces, sizes) →
  (moved = true ↔ indexShiftOf position g ≠ (0, 0))
  ∧ size_ g' = size_ g ∧ length_ g' = length_ g
  ∧ resolution_ g' = resolution_ g
  ∧ layers_ g' = layers_ g ∧ basicLayers_ g' = basicLayers_ g
  ∧ timestamp_ g' = timestamp_ g ∧ frameId_ g' = frameId_ g
  ∧ ∀ layer,
      option_Forall2
        (λ m m', Eigen.rows m' = Eigen.rows m ∧ Eigen.cols m' = Eigen.cols m)
        (data_ g !! layer) (data_ g' !! layer).
Proof.
  intros H. apply move_Some in H
    as (g1 & cl & rl & [_ Hshape] & _ & _ & _ & -> & -> & _ & _).
  split; [|done].
  destruct (indexShiftOf position g) as [s0 s1]. cbn [fst snd].
  rewrite orb_true_iff, !bool_decide_eq_true. split.
  - intros [H|H] Heq; by simplify_eq.
  - intros Hne. destruct (decide (s0 = 0)) as [->|]; [|by left].
    right. intros ->. done.
Qed.

(** X11: a [move] that returns appends to the two region vectors: what
    was passed in stays in front, at most four regions are added, as many
    indices as sizes, and each added region starts at 0 and spans the
    whole size on one of the two axes. *)
Theorem move_regions (position : Position) (newRegionIndeces : list Index)
    (newRegionSizes : list Size) (g g' : GridMap.t) (moved : bool)
    (indeces : list Index) (sizes : list Size) :
  move position newRegionIndeces newRegionSizes g
  = Some (moved, g', indeces, sizes) →
  ∃ newIndeces newSizes,
    indeces = newRegionIndeces ++ newIndeces
    ∧ sizes = newRegionSizes ++ newSizes
    ∧ (length newIndeces <= 4)%nat
    ∧ Forall2 (λ (index : Index) (size : Size),
                 (index.1 = 0 ∧ size.1 = (size_ g).1)
                 ∨ (index.2 = 0 ∧ size.2 = (size_ g).2))
        newIndeces newSizes.
Proof.
  intros H. apply move_Some in H
    as (g1 & cl & rl & _ & Hcl & Hrl & _ & _ & _ & -> & ->).
  eexists _, _. split; [reflexivity|]. split; [reflexivity|].
  split; [rewrite length_app, !length_fmap; lia|].
  apply Forall2_app.
  - clear. induction cl as [|x rest IH]; constructor; [by left|done].
  - clear. induction rl as [|x rest IH]; constructor; [by right|done].
Qed.

(** X12: a [move] that returns false has changed no buffer, has kept
    the position and has added no region; on a map whose start index is
    in range it gives back the map it was given. *)
Theorem move_false_changes_nothing (position : Position)
    (newRegionIndeces : list Index) (newRegionSizes : list Size)
    (g g' : GridMap.t) (indeces : list Index) (sizes : list Size) :
  move position newRegionIndeces newRegionSizes g
  = Some (false, g', indeces, sizes) →
  data_ g' = data_ g ∧ position_ g' = position_ g
  ∧ indeces = newRegionIndeces ∧ sizes = newRegionSizes
  ∧ (startOk g → g' = g).
Proof.
  intros H. apply move_Some in H
    as (g1 & cl & rl & _ & _ & _ & Hzero & Hmoved & -> & -> & ->).
  symmetry in Hmoved. apply orb_false_iff in Hmoved as [H0 H1].
  apply bool_decide_eq_false in H0, H1.
  assert (Hs : indexShiftOf position g = (0, 0)).
  { destruct (indexShiftOf position g) as [s0 s1]. cbn [fst snd] in *.
    f_equal; lia. }
  destruct (Hzero Hs) as (-> & -> & ->). rewrite Hs.
  cbn [fst snd fmap list_fmap data_ position_]. rewrite !app_nil_r.
  unfold QcZ. rewrite Z2Qc_inj_0.
  assert (Hp : (((position_ g).1 + 0 * resolution_ g)%Qc,
                ((position_ g).2 + 0 * resolution_ g)%Qc) = position_ g).
  { destruct (position_ g) as [p1 p2]. cbn [fst snd]. f_equal; ring. }
  rewrite Hp. split; [done|]. split; [done|]. split; [done|].
  split; [done|].
  intros [Ha0 Ha1]. unfold mapIndexWithinRange2, mapIndexWithinRange.
  cbn [fst snd]. rewrite !Z.add_0_r, !Z.mod_small by lia.
  destruct g as [p len r sz [a0 a1] ts fid ls bls d]. done.
Qed.

(** X13: on a map with a positive resolution whose buffers have the
    dimensions of the size and whose basic layers exist, a [move] by less
    than the size on both axes returns and leaves every cell of every
    layer that is not a basic layer as it was. *)
Theorem move_keeps_other_layers (position : Position)
    (newRegionIndeces : list Index) (newRegionSizes : list Size)
    (g : GridMap.t) :
  (0 < resolution_ g)%Qc → dimsOk g → basicOk g →
  Z.abs (indexShiftOf position g).1 < (size_ g).1 →
  Z.abs (indexShiftOf position g).2 < (size_ g).2 →
  ∃ moved g' indeces sizes,
    move position newRegionIndeces newRegionSizes g
    = Some (moved, g', indeces, sizes)
    ∧ ∀ layer index,
        layer ∉ basicLayers_ g → indexOk (size_ g) index →
        at_ layer index g' = at_ layer index g.
Proof.
  intros _ Hdim Hb Hs1 Hs2.
  destruct (move_spec position newRegionIndeces newRegionSizes g Hdim Hb)
    as (g' & ixs & szs & Hmove & _ & _ & _ & _ & _ & _ & _ & _ & _ & Hd).
  eexists _, g', _, _. split; [exact Hmove|].
  intros layer [a b] Hlayer Hidx.
  rewrite (at_dataCleared _ g g' layer (a, b) Hdim Hd Hidx). cbn [fst snd].
  unfold moveCleared.
  rewrite (axisCleared_partial g _ 0), (axisCleared_partial g _ 1)
    by (done || lia).
  rewrite (bool_decide_eq_false_2 (layer ∈ basicLayers_ g)) by done.
  cbn [andb orb]. by destruct (at_ layer (a, b) g).
Qed.

Lemma eraseFirst_subseteq (layer x : string) (l : list string) :
  x ∈ eraseFirst layer l → x ∈ l.
Proof.
  induction l as [|y rest IH]; cbn [eraseFirst]; [done|].
  destruct (decide (y = layer)).
  - intros H. apply elem_of_cons. by right.
  - intros H. apply elem_of_cons in H as [->|H]; apply elem_of_cons;
      [by left|right; by apply IH].
Qed.

Lemma eraseFirst_NoDup (layer : string) (l : list string) :
  NoDup l →
  NoDup (eraseFirst layer l)
  ∧ ∀ x, x ∈ eraseFirst layer l ↔ x ∈ l ∧ x ≠ layer.
Proof.
  induction l as [|y rest IH]; intros Hnd; cbn [eraseFirst].
  - split; [constructor|]. intros x. split; [by intros ?%elem_of_nil|].
    by intros [?%elem_of_nil _].
  - pose proof (NoDup_cons_1_1 _ _ Hnd) as Hy.
    pose proof (NoDup_cons_1_2 _ _ Hnd) as Hrest.
    destruct (IH Hrest) as [IH1 IH2].
    destruct (decide (y = layer)) as [->|Hne].
    + split; [done|]. intros x. rewrite elem_of_cons. split.
      * intros Hx. split; [by right|]. by intros ->.
      * intros [[->|Hx] Hneq]; done.
    + split.
      * apply NoDup_cons_2; [|done]. intros H. by apply eraseFirst_subseteq in H.
      * intros x. rewrite !elem_of_cons, IH2. split.
        -- intros [->|[Hx Hneq]]; [by split; [left|]|by split; [right|]].
        -- intros [[->|Hx] Hneq]; [by left|by right].
Qed.

Lemma sameShape_layersOk (g g' : GridMap.t) :
  sameShape g g' → layersOk g → layersOk g'.
Proof.
  intros [Hf Hd] [Hnd Hkeys]. unfold layersOk. rewrite Hf.
  cbn [layers_ with_data data_]. split; [done|].
  intros layer. rewrite Hkeys. specialize (Hd layer).
  destruct Hd; split; intros [? ?]; by eauto.
Qed.

(** X14: when the names of the layers are distinct and are exactly the
    names that have a buffer, this is so again after [add], [erase],
    [clear], [clearBasic], [clearAll], [setGeometry] and [move]. *)
Theorem layers_in_sync_after_operations (g : GridMap.t) :
  layersOk g →
  (∀ layer data g', add layer data g = Some g' → layersOk g')
  ∧ (∀ layer, layersOk (erase layer g).2)
  ∧ (∀ layer g', clear layer g = Some g' → layersOk g')
  ∧ (∀ g', clearBasic g = Some g' → layersOk g')
  ∧ layersOk (clearAll g)
  ∧ (∀ length resolution position g',
       setGeometry length resolution position g = Some g' → layersOk g')
  ∧ (∀ position indeces sizes r,
       move position indeces sizes g = Some r → layersOk r.1.1.2).
Proof.
  intros Hok. pose proof Hok as [Hnd Hkeys].
  repeat match goal with |- _ ∧ _ => split end.
  - intros layer data g' H. unfold add in H.
    destruct (_ && _); [|done]. unfold exists_ in H.
    destruct (bool_decide (is_Some (data_ g !! layer))) eqn:He;
      [apply bool_decide_eq_true in He|apply bool_decide_eq_false in He];
      simplify_eq; unfold layersOk; cbn [layers_ data_ with_data].
    + split; [done|]. intros l. rewrite Hkeys.
      destruct (decide (l = layer)) as [->|Hne].
      * rewrite lookup_insert_eq. split; [by eauto|done].
      * by rewrite lookup_insert_ne.
    + assert (Hfresh : layer ∉ layers_ g) by (by rewrite Hkeys).
      split.
      * apply list.NoDup_app. split; [done|].
        split; [|apply NoDup_singleton].
        intros x Hx ?%list_elem_of_singleton. by subst.
      * intros l. rewrite elem_of_app, list_elem_of_singleton, Hkeys.
        destruct (decide (l = layer)) as [->|Hne].
        -- rewrite lookup_insert_eq. split; [by eauto|by right].
        -- rewrite lookup_insert_ne by done. split; [by intros [?|?]|by left].
  - intros layer. unfold erase.
    destruct (data_ g !! layer) as [m|] eqn:Hm; [|done].
    cbn [layers_ with_data].
    rewrite bool_decide_eq_true_2 by (rewrite Hkeys; by eauto).
    unfold layersOk. cbn [snd layers_ data_ with_data].
    destruct (eraseFirst_NoDup layer (layers_ g) Hnd) as [H1 H2].
    split; [done|]. intros l. rewrite H2, Hkeys.
    destruct (decide (l = layer)) as [->|Hne].
    + rewrite lookup_delete_eq. split; [by intros [_ ?]|by intros [? ?]].
    + rewrite lookup_delete_ne by done. split; [by intros [? _]|done].
  - intros layer g' H. apply clear_clearedBy in H.
    by eapply sameShape_layersOk; [eapply clearedBy_sameShape|].
  - intros g' H. apply (proj2 (forLayers_clear _ _)) in H.
    by eapply sameShape_layersOk; [eapply clearedBy_sameShape|].
  - by eapply sameShape_layersOk;
      [eapply clearedBy_sameShape, clearAll_clearedBy|].
  - intros length resolution position g' H.
    apply setGeometry_Some in H as [_ ->]. unfold layersOk.
    cbn [layers_ data_]. split; [done|]. intros l.
    rewrite Hkeys, !lookup_fmap. by rewrite !fmap_is_Some.
  - intros position indeces sizes [[[moved g'] ixs] szs] H.
    apply move_Some in H as (g1 & cl & rl & Hs & _ & _ & _ & _ & -> & _).
    cbn [fst snd]. apply (sameShape_layersOk _ _ Hs) in Hok.
    destruct Hs as [Hf _]. unfold layersOk in *. rewrite Hf in Hok.
    exact Hok.
Qed.

Lemma sameShape_dimsOk (g g' : GridMap.t) :
  sameShape g g' → dimsOk g → dimsOk g'.
Proof.
  intros [Hf Hd] (H1 & H2 & Hdim). unfold dimsOk. rewrite Hf.
  cbn [size_ data_ with_data]. split; [done|]. split; [done|].
  intros layer m' Hm'. specialize (Hd layer). rewrite Hm' in Hd.
  inversion Hd as [m ? [Hr Hc] Hm|]; subst.
  symmetry in Hm. apply Hdim in Hm. cbn beta in *. lia.
Qed.

Lemma sameShape_basicOk (g g' : GridMap.t) :
  sameShape g g' → basicOk g → basicOk g'.
Proof.
  intros [Hf Hd] Hb. unfold basicOk in *. rewrite Hf.
  cbn [basicLayers_ data_ with_data].
  eapply Forall_impl; [|exact Hb]. cbn beta. intros layer [m Hm].
  specialize (Hd layer). rewrite Hm in Hd. inversion Hd. by eauto.
Qed.

Lemma round_nonneg (x : Qc) : (0 < x)%Qc → 0 <= round x.
Proof.
  intros Hx. unfold round.
  destruct (decide (0 ≤ x)%Qc) as [_|Hn].
  - change 0 with (Qfloor 0). apply Qfloor_resp_le.
    qc_to_q. lra.
  - exfalso. apply Hn. by apply Qclt_le_weak.
Qed.

(** X15: on a map whose buffers have the dimensions of the size, whose
    basic layers have buffers, whose layers are in step with the buffers
    and whose basic layers are distinct, [add], [erase], [clear],
    [clearBasic], [clearAll], [setGeometry] and [move] return a map whose
    buffers have the dimensions of its size and whose basic layers have
    buffers. *)
Theorem buffers_well_formed_after_operations (g : GridMap.t) :
  dimsOk g → basicOk g → layersOk g → NoDup (basicLayers_ g) →
  (∀ layer data g',
     add layer data g = Some g' → dimsOk g' ∧ basicOk g')
  ∧ (∀ layer, dimsOk (erase layer g).2 ∧ basicOk (erase layer g).2)
  ∧ (∀ layer g', clear layer g = Some g' → dimsOk g' ∧ basicOk g')
  ∧ (∀ g', clearBasic g = Some g' → dimsOk g' ∧ basicOk g')
  ∧ (dimsOk (clearAll g) ∧ basicOk (clearAll g))
  ∧ (∀ length resolution position g',
       setGeometry length resolution position g = Some g' →
       dimsOk g' ∧ basicOk g')
  ∧ (∀ position indeces sizes r,
       move position indeces sizes g = Some r →
       dimsOk r.1.1.2 ∧ basicOk r.1.1.2).
Proof.
  intros Hdim Hb [_ Hkeys] Hnd. pose proof Hdim as (Hs1 & Hs2 & Hdim').
  split; [|split; [|split; [|split; [|split; [|split]]]]].
  - intros layer data g' H. unfold add in H.
    destruct (bool_decide ((size_ g).1 = _)) eqn:H1; [|done].
    destruct (bool_decide ((size_ g).2 = _)) eqn:H2; [|done].
    apply bool_decide_eq_true in H1, H2. cbn [andb] in H.
    assert (Hd : data_ g' = <[layer := data]> (data_ g)
                 ∧ size_ g' = size_ g ∧ basicLayers_ g' = basicLayers_ g).
    { destruct (exists_ layer g); by simplify_eq. }
    destruct Hd as (Hd & Hs & Hbl). split.
    + unfold dimsOk. rewrite Hd, Hs. split; [done|]. split; [done|].
      apply map_Forall_insert_2; [by split|done].
    + unfold basicOk in *. rewrite Hd, Hbl.
      eapply Forall_impl; [|exact Hb]. cbn beta. intros l Hl.
      destruct (decide (l = layer)) as [->|Hne].
      * rewrite lookup_insert_eq. by eauto.
      * by rewrite lookup_insert_ne.
  - intros layer. unfold erase.
    destruct (data_ g !! layer) as [m|] eqn:Hm; [|done].
    cbn [layers_ with_data].
    rewrite bool_decide_eq_true_2 by (rewrite Hkeys; by eauto).
    cbn [snd]. split.
    + unfold dimsOk. cbn [size_ data_ with_data].
      split; [done|]. split; [done|]. by apply map_Forall_delete.
    + unfold basicOk in *. cbn [basicLayers_ data_ with_data].
      destruct (eraseFirst_NoDup layer (basicLayers_ g) Hnd) as [_ Hin].
      rewrite List.Forall_forall in Hb. apply List.Forall_forall.
      intros l Hl%list_elem_of_In. apply Hin in Hl as [Hl Hne].
      rewrite lookup_delete_ne by done. apply Hb. by apply list_elem_of_In.
  - intros layer g' H. apply clear_clearedBy, clearedBy_sameShape in H.
    split; [by eapply sameShape_dimsOk|by eapply sameShape_basicOk].
  - intros g' H.
    apply (proj2 (forLayers_clear _ _)), clearedBy_sameShape in H.
    split; [by eapply sameShape_dimsOk|by eapply sameShape_basicOk].
  - pose proof (clearedBy_sameShape _ _ _ (clearAll_clearedBy g)) as H.
    split; [by eapply sameShape_dimsOk|by eapply sameShape_basicOk].
  - intros length resolution position g' H. split.
    + unfold setGeometry in H.
      destruct (bool_decide (0 < length.1)%Qc) eqn:H1; [|done].
      destruct (bool_decide (0 < length.2)%Qc) eqn:H2; [|done].
      destruct (bool_decide (0 < resolution)%Qc) eqn:H3; [|done].
      apply bool_decide_eq_true in H1, H2, H3. cbn [andb] in H. simplify_eq.
      unfold dimsOk. cbn [size_ data_ clearAll resize with_data fst snd].
      assert (Hpos : ∀ l : Qc, (0 < l)%Qc → (0 < l / resolution)%Qc).
      { intros l Hl. unfold Qcdiv.
        rewrite <- (Qcmult_0_l (/ resolution)).
        apply Qcmult_lt_compat_r; [|done].
        apply Qcinv_pos. done. }
      split; [by apply round_nonneg, Hpos|].
      split; [by apply round_nonneg, Hpos|].
      intros l m. rewrite !lookup_fmap.
      destruct (data_ g !! l); [|done]. cbn. by intros [= <-].
    + apply setGeometry_Some in H as [_ ->]. unfold basicOk in *.
      cbn [basicLayers_ data_].
      eapply Forall_impl; [|exact Hb]. cbn beta. intros l.
      by rewrite !lookup_fmap, !fmap_is_Some.
  - intros position indeces sizes [[[moved g'] ixs] szs] H.
    apply move_Some in H as (g1 & cl & rl & Hs & _ & _ & _ & _ & -> & _).
    pose proof (sameShape_dimsOk _ _ Hs Hdim) as Hd1.
    pose proof (sameShape_basicOk _ _ Hs Hb) as Hb1.
    destruct Hs as [Hf _]. unfold dimsOk, basicOk in *.
    rewrite Hf in Hd1, Hb1. cbn [fst snd]. split; [exact Hd1|exact Hb1].
Qed.

Lemma setGeometry_dimsOk (length : Length) (resolution : Qc)
    (position : Position) (g g' : GridMap.t) :
  setGeometry length resolution position g = Some g' → dimsOk g'.
Proof.
  unfold setGeometry. intros H.
  destruct (bool_decide (0 < length.1)%Qc) eqn:H1; [|done].
  destruct (bool_decide (0 < length.2)%Qc) eqn:H2; [|done].
  destruct (bool_decide (0 < resolution)%Qc) eqn:H3; [|done].
  apply bool_decide_eq_true in H1, H2, H3. cbn [andb] in H. simplify_eq.
  unfold dimsOk. cbn [size_ data_ clearAll resize with_data fst snd].
  assert (Hpos : ∀ l : Qc, (0 < l)%Qc → (0 < l / resolution)%Qc).
  { intros l Hl. unfold Qcdiv.
    rewrite <- (Qcmult_0_l (/ resolution)).
    apply Qcmult_lt_compat_r; [|done].
    apply Qcinv_pos. done. }
  split; [by apply round_nonneg, Hpos|].
  split; [by apply round_nonneg, Hpos|].
  intros l m. rewrite !lookup_fmap.
  destruct (data_ g !! l); [|done]. cbn. by intros [= <-].
Qed.

Lemma copyRegions_dims (src : Matrix) (regions : list BufferRegion.t)
    (dst dst' : Matrix) :
  copyRegions src regions dst = Some dst' →
  Eigen.rows dst' = Eigen.rows dst ∧ Eigen.cols dst' = Eigen.cols dst.
Proof.
  revert dst. induction regions as [|region rest IH]; intros dst H;
    cbn [copyRegions] in H.
  - by simplify_eq.
  - destruct (copyRegion src region dst) as [dst1|] eqn:H1; [|done].
    cbn [mbind option_bind] in H. apply IH in H as [-> ->].
    unfold copyRegion in H1.
    destruct (BufferRegion.getQuadrant region);
      [by simplify_eq| | | |];
      by apply block_assign_Some in H1 as (_ & ? & ? & _).
Qed.

Lemma copyData_dimsOk (l : list (string * Matrix))
    (regions : list BufferRegion.t) (sub sub' : GridMap.t) :
  (∀ name src, (name, src) ∈ l → is_Some (data_ sub !! name)) →
  copyData l regions sub = Some sub' →
  sameShape sub sub'.
Proof.
  revert sub. induction l as [|[name src] rest IH]; intros sub Hkeys H;
    cbn [copyData] in H.
  - simplify_eq. apply sameShape_refl.
  - destruct (copyRegions src regions _) as [dst|] eqn:Hdst; [|done].
    cbn [mbind option_bind] in H.
    destruct (Hkeys name src) as [m Hm]; [apply elem_of_cons; by left|].
    rewrite Hm in Hdst. cbn [default] in Hdst.
    apply copyRegions_dims in Hdst as [Hr Hc].
    assert (Hstep : sameShape sub
                      (with_data (<[name := dst]> (data_ sub)) sub)).
    { split; [done|]. intros layer. cbn [data_ with_data].
      destruct (decide (layer = name)) as [->|Hne].
      - rewrite lookup_insert_eq, Hm. by constructor.
      - rewrite lookup_insert_ne by done.
        by destruct (data_ sub !! layer); constructor. }
    eapply sameShape_trans; [exact Hstep|]. apply IH; [|done].
    intros name' src' Hin. cbn [data_ with_data].
    destruct (decide (name' = name)) as [->|Hne].
    + rewrite lookup_insert_eq. by eauto.
    + rewrite lookup_insert_ne by done. eapply Hkeys.
      apply elem_of_cons. by right.
Qed.

(** X16: [getSubmap] never changes the map it reads.  When it reports
    failure the submap is the map built from the layers alone.  When it
    reports success the submap has the layers, the basic layers, the
    timestamp and the frame of the source and the start index (0, 0); if
    the layers of the source are in step with its buffers, the buffers of
    the submap have the dimensions of its size and its layers are in step
    with its buffers. *)
Theorem getSubmap_result (position : Position) (length : Length)
    (g g0 sub : GridMap.t) (ok : bool) :
  getSubmap position length g = Some (g0, sub, ok) →
  g0 = g
  ∧ (ok = false → sub = GridMap (layers_ g))
  ∧ (ok = true →
     layers_ sub = layers_ g ∧ basicLayers_ sub = basicLayers_ g
     ∧ timestamp_ sub = timestamp_ g ∧ frameId_ sub = frameId_ g
     ∧ startIndex_ sub = (0, 0)
     ∧ (layersOk g → dimsOk sub ∧ layersOk sub)).
Proof.
  intros H. split; [by eapply getSubmap_source|]. split.
  - intros ->. unfold getSubmap in H.
    destruct (SubmapGeometry.make _ _ _ _ _ _ _); [|by simplify_eq].
    destruct (setGeometry' _ _); [|done]. cbn [mbind option_bind] in H.
    destruct (Decomposer.getBufferRegionsForSubmap _ _ _ _); [|by simplify_eq].
    destruct (copyData _ _ _); [|done]. cbn [mbind option_bind] in H. done.
  - intros ->.
    apply getSubmap_success in H
      as (info & sub0 & regions & Hmake & Hgeo & _ & Hcopy & _).
    unfold setGeometry' in Hgeo.
    cbn [SubmapGeometry.getLength SubmapGeometry.getResolution
         SubmapGeometry.getPosition SubmapGeometry.length_
         SubmapGeometry.resolution_ SubmapGeometry.position_] in Hgeo.
    pose proof (setGeometry_dimsOk _ _ _ _ _ Hgeo) as Hdim0.
    apply setGeometry_Some in Hgeo as (Hr & Hsub0).
    pose proof (copyData_frame _ _ _ _ Hcopy) as Hframe.
    rewrite Hframe. rewrite Hsub0.
    cbn [with_data setStartIndex setFrameId setTimestamp setBasicLayers
         layers_ basicLayers_ timestamp_ frameId_ resolution_ startIndex_
         length_ size_ data_ GridMap fst snd].
    repeat (split; [reflexivity|]).
    intros [Hnd Hkeys].
    assert (Hshape : sameShape (setStartIndex (0, 0) sub0) sub).
    { eapply copyData_dimsOk; [|exact Hcopy].
      intros name src Hin. apply elem_of_map_to_list in Hin.
      rewrite Hsub0. cbn [setStartIndex data_].
      rewrite !lookup_fmap, !fmap_is_Some.
      cbn [setFrameId setTimestamp setBasicLayers data_].
      rewrite GridMap_data_lookup.
      rewrite bool_decide_eq_true_2; [by eauto|].
      apply Hkeys. by eauto. }
    assert (Hok0 : layersOk (setStartIndex (0, 0) sub0)).
    { rewrite Hsub0. unfold layersOk.
      cbn [setStartIndex layers_ data_ setFrameId setTimestamp
           setBasicLayers GridMap].
      split; [done|]. intros layer.
      rewrite !lookup_fmap, !fmap_is_Some.
      pose proof (GridMap_data_lookup (layers_ g) layer) as Hl.
      unfold GridMap in Hl. cbn [data_] in Hl. rewrite Hl.
      destruct (bool_decide (layer ∈ layers_ g)) eqn:Hin;
        [apply bool_decide_eq_true in Hin|apply bool_decide_eq_false in Hin].
      - split; [by eauto|done].
      - split; [done|by intros [? ?]]. }
    pose proof (sameShape_dimsOk _ _ Hshape Hdim0) as Hd.
    pose proof (sameShape_layersOk _ _ Hshape Hok0) as Hl.
    rewrite Hframe, Hsub0 in Hd, Hl. split; [exact Hd|exact Hl].
Qed.

(** ** Worked examples of the further properties *)

Lemma exampleMap_layersOk : layersOk exampleMap.
Proof.
  split; [by_computation|]. intros layer.
  unfold exampleMap. cbn [layers_ data_].
  rewrite !elem_of_cons, elem_of_nil.
  destruct (decide (layer = "elevation")) as [->|H1].
  { rewrite lookup_insert_eq. split; [by eauto|by left]. }
  rewrite lookup_insert_ne by done.
  destruct (decide (layer = "color")) as [->|H2].
  { rewrite lookup_insert_eq. split; [by eauto|by right; left]. }
  rewrite lookup_insert_ne, lookup_empty by done.
  split; [by intros [?|[?|[]]]|by intros [? ?]].
Qed.

Lemma wrappedMap_layersOk : layersOk wrappedMap.
Proof. exact exampleMap_layersOk. Qed.

Lemma erase_after_add_witness :
  ∃ g', add "variance" exampleData exampleMap = Some g'
        ∧ erase "variance" g' = (true, exampleMap).
Proof.
  assert (H : is_Some (add "variance" exampleData exampleMap))
    by (vm_compute; eauto).
  destruct H as [g' Hg']. exists g'. split; [exact Hg'|].
  apply (erase_after_add "variance" exampleData exampleMap g');
    [vm_compute; reflexivity|by_computation|by_computation|exact Hg'].
Defined.

Lemma clearCols_clearRows_effect_witness :
  dimsOk wrappedMap ∧ basicOk wrappedMap
  ∧ (∃ g', clearCols 1 2 wrappedMap = Some g'
       ∧ clearedBy (λ layer a b,
                      bool_decide (layer ∈ basicLayers_ wrappedMap)
                      && bool_decide (1 <= a < 1 + 2)) wrappedMap g')
  ∧ clearRows 1 2 wrappedMap = None.
Proof.
  assert (H1 : dimsOk wrappedMap) by by_computation.
  assert (H2 : basicOk wrappedMap) by by_computation.
  split; [exact H1|]. split; [exact H2|].
  destruct (clearCols_clearRows_effect 1 2 wrappedMap H1 H2)
    as (Hcols & _ & _ & Hrows).
  split; [apply Hcols; by_computation|apply Hrows; by_computation].
Defined.

Lemma move_frame_witness :
  ∃ moved g' indeces sizes,
    move (QcZ 1, QcZ (-1)) [] [] wrappedMap = Some (moved, g', indeces, sizes)
    ∧ (moved = true ↔ indexShiftOf (QcZ 1, QcZ (-1)) wrappedMap ≠ (0, 0))
    ∧ size_ g' = size_ wrappedMap
    ∧ layers_ g' = layers_ wrappedMap
    ∧ basicLayers_ g' = basicLayers_ wrappedMap.
Proof.
  assert (H : is_Some (move (QcZ 1, QcZ (-1)) [] [] wrappedMap))
    by (vm_compute; eauto).
  destruct H as [[[[moved g'] indeces] sizes] H].
  exists moved, g', indeces, sizes. split; [exact H|].
  destruct (move_frame (QcZ 1, QcZ (-1)) [] [] wrappedMap g' moved indeces
              sizes H) as (Hm & Hs & _ & _ & Hl & Hb & _).
  repeat split; [apply Hm|apply Hm|exact Hs|exact Hl|exact Hb].
Defined.

Lemma move_regions_witness :
  ∃ moved g' indeces sizes,
    move (QcZ 1, QcZ (-1)) [(7, 7)] [(1, 1)] wrappedMap
    = Some (moved, g', indeces, sizes)
    ∧ ∃ newIndeces newSizes,
        indeces = (7, 7) :: newIndeces ∧ sizes = (1, 1) :: newSizes
        ∧ (length newIndeces <= 4)%nat.
Proof.
  assert (H : is_Some (move (QcZ 1, QcZ (-1)) [(7, 7)] [(1, 1)] wrappedMap))
    by (vm_compute; eauto).
  destruct H as [[[[moved g'] indeces] sizes] H].
  exists moved, g', indeces, sizes. split; [exact H|].
  destruct (move_regions (QcZ 1, QcZ (-1)) [(7, 7)] [(1, 1)] wrappedMap g'
              moved indeces sizes H)
    as (newIndeces & newSizes & Hi & Hs & Hlen & _).
  exists newIndeces, newSizes. split; [exact Hi|]. split; [exact Hs|exact Hlen].
Defined.

Lemma move_false_changes_nothing_witness :
  startOk wrappedMap
  ∧ ∃ g' indeces sizes,
      move (Q2Qc (1 # 4), 0%Qc) [] [] wrappedMap
      = Some (false, g', indeces, sizes)
      ∧ g' = wrappedMap.
Proof.
  assert (Hs : startOk wrappedMap) by by_computation.
  split; [exact Hs|].
  assert (H : ∃ g' indeces sizes,
                move (Q2Qc (1 # 4), 0%Qc) [] [] wrappedMap
                = Some (false, g', indeces, sizes))
    by (vm_compute; eauto).
  destruct H as (g' & indeces & sizes & H).
  exists g', indeces, sizes. split; [exact H|].
  destruct (move_false_changes_nothing (Q2Qc (1 # 4), 0%Qc) [] [] wrappedMap
              g' indeces sizes H) as (_ & _ & _ & _ & Hg).
  exact (Hg Hs).
Defined.

Lemma move_keeps_other_layers_witness :
  Z.abs (indexShiftOf (QcZ 1, QcZ (-1)) wrappedMap).1 < 3
  ∧ Z.abs (indexShiftOf (QcZ 1, QcZ (-1)) wrappedMap).2 < 2
  ∧ ∃ moved g' indeces sizes,
      move (QcZ 1, QcZ (-1)) [] [] wrappedMap = Some (moved, g', indeces, sizes)
      ∧ ∀ layer index,
          layer ∉ basicLayers_ wrappedMap → indexOk (size_ wrappedMap) index →
          at_ layer index g' = at_ layer index wrappedMap.
Proof.
  assert (H1 : Z.abs (indexShiftOf (QcZ 1, QcZ (-1)) wrappedMap).1 < 3)
    by by_computation.
  assert (H2 : Z.abs (indexShiftOf (QcZ 1, QcZ (-1)) wrappedMap).2 < 2)
    by by_computation.
  split; [exact H1|]. split; [exact H2|].
  apply (move_keeps_other_layers (QcZ 1, QcZ (-1)) [] [] wrappedMap);
    [by_computation|by_computation|by_computation|exact H1|exact H2].
Defined.

Lemma layers_in_sync_after_operations_witness :
  layersOk wrappedMap
  ∧ layersOk (erase "color" wrappedMap).2
  ∧ layersOk (clearAll wrappedMap)
  ∧ ∃ r, move (QcZ 1, QcZ (-1)) [] [] wrappedMap = Some r ∧ layersOk r.1.1.2.
Proof.
  pose proof wrappedMap_layersOk as H. split; [exact H|].
  destruct (layers_in_sync_after_operations wrappedMap H)
    as (_ & Herase & _ & _ & Hclear & _ & Hmove).
  split; [apply Herase|]. split; [exact Hclear|].
  assert (Hr : is_Some (move (QcZ 1, QcZ (-1)) [] [] wrappedMap))
    by (vm_compute; eauto).
  destruct Hr as [r Hr]. exists r. split; [exact Hr|].
  exact (Hmove _ _ _ _ Hr).
Defined.

Lemma buffers_well_formed_after_operations_witness :
  dimsOk wrappedMap ∧ basicOk wrappedMap ∧ layersOk wrappedMap
  ∧ NoDup (basicLayers_ wrappedMap)
  ∧ (dimsOk (erase "elevation" wrappedMap).2
     ∧ basicOk (erase "elevation" wrappedMap).2)
  ∧ ∃ r, move (QcZ 1, QcZ (-1)) [] [] wrappedMap = Some r
         ∧ dimsOk r.1.1.2 ∧ basicOk r.1.1.2.
Proof.
  assert (H1 : dimsOk wrappedMap) by by_computation.
  assert (H2 : basicOk wrappedMap) by by_computation.
  pose proof wrappedMap_layersOk as H3.
  assert (H4 : NoDup (basicLayers_ wrappedMap)) by by_computation.
  split; [exact H1|]. split; [exact H2|]. split; [exact H3|].
  split; [exact H4|].
  destruct (buffers_well_formed_after_operations wrappedMap H1 H2 H3 H4)
    as (_ & Herase & _ & _ & _ & _ & Hmove).
  split; [apply Herase|].
  assert (Hr : is_Some (move (QcZ 1, QcZ (-1)) [] [] wrappedMap))
    by (vm_compute; eauto).
  destruct Hr as [r Hr]. exists r. split; [exact Hr|].
  exact (Hmove _ _ _ _ Hr).
Defined.

Lemma getSubmap_result_witness :
  getSubmap (half, 0%Qc) (QcZ 2, QcZ 2) wrappedMap
  = Some (wrappedMap, exampleSubmap, true)
  ∧ layers_ exampleSubmap = layers_ wrappedMap
  ∧ basicLayers_ exampleSubmap = basicLayers_ wrappedMap
  ∧ startIndex_ exampleSubmap = (0, 0)
  ∧ dimsOk exampleSubmap ∧ layersOk exampleSubmap.
Proof.
  assert (H : getSubmap (half, 0%Qc) (QcZ 2, QcZ 2) wrappedMap
              = Some (wrappedMap, exampleSubmap, true))
    by (vm_compute; reflexivity).
  split; [exact H|].
  destruct (getSubmap_result (half, 0%Qc) (QcZ 2, QcZ 2) wrappedMap
              wrappedMap exampleSubmap true H) as (_ & _ & Hok).
  destruct (Hok eq_refl) as (Hl & Hb & _ & _ & Hs & Hwf).
  split; [exact Hl|]. split; [exact Hb|]. split; [exact Hs|].
  exact (Hwf wrappedMap_layersOk).
Defined.
